(** * fc-optimizer: a shallow embedding of the player aggregation, filter,
    normalisation, retry and SBC ranking code, with its specification. *)

From Stdlib Require Import Ascii String List ZArith Bool Lia Permutation Sorted Floats.
Import ListNotations.

(* ================================================================= *)
(** ** Data model (types/player.ts, as used by services/api.ts and App.tsx) *)

(** The source category tag of a record: the [type] field of
    [ProcessedPlayer], one of the three string literals the code writes. *)
Inductive PlayerType := Transfer | Storage | Duplicated.

Definition PlayerType_eq_dec (a b : PlayerType) : {a = b} + {a <> b}.
Proof. decide equality. Defined.

Definition PlayerType_eqb (a b : PlayerType) : bool :=
  if PlayerType_eq_dec a b then true else false.

(** [ProcessedPlayer]; JS numbers that hold integer ids and ratings are [Z],
    an optional image ([string | undefined]) is [option string]. *)
Record ProcessedPlayer := mkProcessedPlayer {
  assetId : Z;
  name : string;
  rating : Z;
  position : string;
  nation : string;
  nationId : Z;
  nationImg : option string;
  league : string;
  leagueId : Z;
  leagueImg : option string;
  team : string;
  teamId : Z;
  teamImg : option string;
  type : PlayerType
}.

(** [AggregatedPlayer = ProcessedPlayer & { copies; types }]: the spread
    [...player] is kept as the embedded record [base]. *)
Record AggregatedPlayer := mkAggregatedPlayer {
  base : ProcessedPlayer;
  copies : nat;
  types : list PlayerType
}.

(* ================================================================= *)
(** ** Aggregation ([aggregatedPlayers], App.tsx) *)

(** The map key is the template string [`${assetId}-${rating}`]; on integer
    ids and ratings this string determines the pair and conversely, so the
    key is the pair itself. *)
Definition key (p : ProcessedPlayer) : Z * Z := (assetId p, rating p).

Definition key_eq_dec (a b : Z * Z) : {a = b} + {a <> b}.
Proof. decide equality; apply Z.eq_dec. Defined.
Arguments key_eq_dec : simpl never.

(** A JS [Map] as an association list in insertion order: [get] returns the
    entry of the key, [set] overwrites an existing key in place and appends
    a new key at the end. *)
Fixpoint map_get {V} (m : list ((Z * Z) * V)) (k : Z * Z) : option V :=
  match m with
  | [] => None
  | (k', v) :: m' => if key_eq_dec k' k then Some v else map_get m' k
  end.

Fixpoint map_set {V} (m : list ((Z * Z) * V)) (k : Z * Z) (v : V)
  : list ((Z * Z) * V) :=
  match m with
  | [] => [(k, v)]
  | (k', v') :: m' =>
      if key_eq_dec k' k then (k', v) :: m' else (k', v') :: map_set m' k v
  end.

(** [Array.prototype.includes] on the types list. *)
Definition includes (l : list PlayerType) (t : PlayerType) : bool :=
  existsb (PlayerType_eqb t) l.

(** One iteration of the loop body. The [existing] object is mutated in
    place; it is referenced only from the map, so writing the updated
    object back under its key is the same store. *)
Definition aggregate_step (playerMap : list ((Z * Z) * AggregatedPlayer))
    (player : ProcessedPlayer) : list ((Z * Z) * AggregatedPlayer) :=
  let k := key player in
  match map_get playerMap k with
  | Some existing =>
      map_set playerMap k
        {| base := base existing;
           copies := copies existing + 1;
           types := if negb (includes (types existing) (type player))
                    then types existing ++ [type player]
                    else types existing |}
  | None =>
      map_set playerMap k {| base := player; copies := 1; types := [type player] |}
  end.

(** [Array.from(playerMap.values())] after the loop. *)
Definition aggregatedPlayers (players : list ProcessedPlayer) : list AggregatedPlayer :=
  map snd (fold_left aggregate_step players []).

(** Specification side: the de-duplication of a list keeping first
    occurrences, in order of first appearance. *)
Section Undup.
Context {A : Type} (eq_dec : forall a b : A, {a = b} + {a <> b}).

Fixpoint undup (l : list A) : list A :=
  match l with
  | [] => []
  | x :: l' => x :: remove eq_dec x (undup l')
  end.
End Undup.

Definition records_with_key (k : Z * Z) (ps : list ProcessedPlayer) : list ProcessedPlayer :=
  filter (fun p => if key_eq_dec (key p) k then true else false) ps.

Definition agg_key (e : AggregatedPlayer) : Z * Z := key (base e).

(** A record with only its key and its category set, for concrete runs. *)
Definition sample_player (aid r : Z) (t : PlayerType) : ProcessedPlayer :=
  mkProcessedPlayer aid "" r "" "" 0 None "" 0 None "" 0 None t.

(* ================================================================= *)
(** ** Filtering ([filteredPlayers], App.tsx) *)

(** [FilterState] (types/player.ts) as the filter reads it; the category
    list is [types] in the source, here [typeFilter] since record fields
    share one name space. *)
Record FilterState := mkFilterState {
  ratingRange : Z * Z;
  positions : list string;
  nations : list string;
  leagues : list string;
  teams : list string;
  typeFilter : list PlayerType;
  multipleCopiesOnly : bool
}.

Open Scope char_scope.

(** [s.split(' / ')], from left to right, [cur] being the piece read so far. *)
Fixpoint split_slash_aux (s : string) (cur : string) : list string :=
  match s with
  | EmptyString => [cur]
  | String " " (String "/" (String " " rest)) => cur :: split_slash_aux rest EmptyString
  | String c rest => split_slash_aux rest (append cur (String c EmptyString))
  end.

Close Scope char_scope.

Definition split_slash (s : string) : list string := split_slash_aux s EmptyString.

(** [Array.prototype.includes] on a list of strings. *)
Definition str_includes (l : list string) (x : string) : bool :=
  existsb (String.eqb x) l.

(** The callback of [.filter]: the checks in source order, each an early
    [return false]. *)
Definition passes (filters : FilterState) (player : AggregatedPlayer) : bool :=
  let p := base player in
  if (rating p <? fst (ratingRange filters))%Z || (snd (ratingRange filters) <? rating p)%Z
  then false
  else if (0 <? length (positions filters))%nat &&
          negb (existsb (fun pos => str_includes (split_slash (position p)) pos)
                        (positions filters))
  then false
  else if (0 <? length (nations filters))%nat && negb (str_includes (nations filters) (nation p))
  then false
  else if (0 <? length (leagues filters))%nat && negb (str_includes (leagues filters) (league p))
  then false
  else if (0 <? length (teams filters))%nat && negb (str_includes (teams filters) (team p))
  then false
  else if (0 <? length (typeFilter filters))%nat &&
          negb (existsb (fun t => includes (typeFilter filters) t) (types player))
  then false
  else if multipleCopiesOnly filters && (copies player <? 2)%nat
  then false
  else true.

(** [Array.prototype.sort] with a comparator, which is stable: [after a b]
    is [compare(a, b) > 0], i.e. [a] is placed after [b]. Insertion sort
    places each element after exactly those later ones it must follow. *)
Section SortBy.
Context {A : Type} (after : A -> A -> bool).

Fixpoint insert_by (x : A) (l : list A) : list A :=
  match l with
  | [] => [x]
  | y :: r => if after x y then y :: insert_by x r else x :: y :: r
  end.

Fixpoint sort_by (l : list A) : list A :=
  match l with
  | [] => []
  | x :: r => insert_by x (sort_by r)
  end.
End SortBy.

(** The comparator [(a, b) => b.rating - a.rating], positive exactly when
    [b] has the higher rating. *)
Definition rating_after (a b : AggregatedPlayer) : bool :=
  (0 <? rating (base b) - rating (base a))%Z.

Definition filteredPlayers (aggregated : list AggregatedPlayer) (filters : FilterState)
  : list AggregatedPlayer :=
  sort_by rating_after (filter (passes filters) aggregated).

(** Specification side: the conjunction of the claim, as a proposition. *)
Definition entry_passes (filters : FilterState) (e : AggregatedPlayer) : Prop :=
  let p := base e in
  (fst (ratingRange filters) <= rating p <= snd (ratingRange filters))%Z /\
  (positions filters = [] \/
     exists pos, In pos (split_slash (position p)) /\ In pos (positions filters)) /\
  (nations filters = [] \/ In (nation p) (nations filters)) /\
  (leagues filters = [] \/ In (league p) (leagues filters)) /\
  (teams filters = [] \/ In (team p) (teams filters)) /\
  (typeFilter filters = [] \/ exists t, In t (types e) /\ In t (typeFilter filters)) /\
  (multipleCopiesOnly filters = true -> (copies e >= 2)%nat).

Definition with_rating (r : Z) (l : list AggregatedPlayer) : list AggregatedPlayer :=
  filter (fun e => Z.eqb (rating (base e)) r) l.

Definition rating_desc (a b : AggregatedPlayer) : Prop :=
  (rating (base b) <= rating (base a))%Z.

(** Concrete inputs for the filter. *)
Definition sample_aggregated : list AggregatedPlayer :=
  [mkAggregatedPlayer (sample_player 1 80 Storage) 1 [Storage];
   mkAggregatedPlayer (sample_player 2 85 Transfer) 2 [Transfer; Duplicated];
   mkAggregatedPlayer (sample_player 3 80 Duplicated) 1 [Duplicated]].

Definition open_filters : FilterState := mkFilterState (40, 99)%Z [] [] [] [] [] false.

(* ================================================================= *)
(** ** Fetching with retries ([fetchWithRetry], services/api.ts) *)

(** A JS [Error] object, with its message. *)
Record Error := mkError { message : string }.

(** What a failing request throws: an [Error], or any other value (given by
    its [String(...)] rendering). *)
Inductive Thrown := ThrownError (e : Error) | ThrownValue (s : string).

(** [error instanceof Error ? error : new Error(String(error))] *)
Definition toError (t : Thrown) : Error :=
  match t with
  | ThrownError e => e
  | ThrownValue s => mkError s
  end.

(** The outcome of one [corsRequest] call. *)
Inductive Attempt (T : Type) := Ok (v : T) | Fail (t : Thrown).
Arguments Ok {T} v.
Arguments Fail {T} t.

Definition failed {T} (a : Attempt T) : Prop :=
  match a with Ok _ => False | Fail _ => True end.

(** Observable effects: the [n]-th request, and a [setTimeout] wait. *)
Inductive Event := EFetch (attempt : nat) | ESleep (ms : nat).

Fixpoint string_of_nat_aux (fuel n : nat) (acc : string) : string :=
  match fuel with
  | O => acc
  | S fuel' =>
      let acc' := String (ascii_of_nat (48 + n mod 10)) acc in
      if (n <? 10)%nat then acc' else string_of_nat_aux fuel' (n / 10) acc'
  end.

(** [String(n)] for a natural number. *)
Definition string_of_nat (n : nat) : string := string_of_nat_aux (S n) n EmptyString.

(** The [for] loop from [attempt] with [remaining] iterations left. The
    environment answers the request of attempt [i] with [req i]. *)
Fixpoint retry_loop {T} (req : nat -> Attempt T) (name : string) (maxRetries : nat)
    (attempt remaining : nat) (lastError : option Error) : list Event * (Error + T) :=
  match remaining with
  | O =>
      (* throw lastError || new Error(`Failed to fetch ${name} after ...`) *)
      ([], inl (match lastError with
                | Some e => e
                | None => mkError ("Failed to fetch " ++ name ++ " after " ++
                                   string_of_nat maxRetries ++ " retries")
                end))
  | S remaining' =>
      match req attempt with
      | Ok result => ([EFetch attempt], inr result)
      | Fail error =>
          let lastError' := toError error in
          let wait := if (attempt <? maxRetries)%nat then [ESleep (1000 * attempt)] else [] in
          let '(tr, r) := retry_loop req name maxRetries (S attempt) remaining' (Some lastError') in
          (EFetch attempt :: wait ++ tr, r)
      end
  end.

(** [fetchWithRetry(url, options, name, maxRetries = 3)]: the result is the
    trace of requests and waits, and the rejection ([inl]) or value ([inr]). *)
Definition fetchWithRetry {T} (req : nat -> Attempt T) (name : string) (maxRetries : nat)
  : list Event * (Error + T) :=
  retry_loop req name maxRetries 1 maxRetries None.

(** Specification side: attempts [i], [i+1], ..., [n] of them, with a wait of
    [i * 1000] ms after attempt [i] whenever another attempt follows. *)
Fixpoint spaced_attempts (i n : nat) : list Event :=
  match n with
  | O => []
  | S O => [EFetch i]
  | S n' => EFetch i :: ESleep (1000 * i) :: spaced_attempts (S i) n'
  end.

Definition is_fetch (e : Event) : bool :=
  match e with EFetch _ => true | ESleep _ => false end.

(** Concrete request behaviours: two failures then a value; always down. *)
Definition flaky_request (i : nat) : Attempt nat :=
  if (i <? 3)%nat then Fail (ThrownError (mkError "API Error: 502 Bad Gateway")) else Ok 42.

Definition always_down {T} (i : nat) : Attempt T :=
  Fail (ThrownError (mkError "API Error: 503 Service Unavailable")).

(* ================================================================= *)
(** ** Normalisation ([processPlayers], services/api.ts) *)

(** An item of the trade pile, storage or purchased-items responses, with
    the fields the code reads. *)
Module Item.
Record ItemData := mkItemData {
  assetId : Z;
  rating : Z;
  possiblePositions : option (list string);
  nation : Z;
  leagueId : Z;
  teamid : Z
}.
End Item.

(** An entry of the EA player catalog: given, family and common name. *)
Module Raw.
Record RawPlayerData := mkRawPlayerData {
  id : Z;
  f : string;
  l : string;
  c : option string
}.
End Raw.

Module Entity.
Record EntityInfo := mkEntityInfo { name : string; imgUrl : option string }.
End Entity.

(** A JS [Map<number, V>] read with [get]. *)
Fixpoint zmap_get {V} (m : list (Z * V)) (k : Z) : option V :=
  match m with
  | [] => None
  | (k', v) :: m' => if Z.eqb k' k then Some v else zmap_get m' k
  end.

Module Static.
Record CachedData := mkCachedData {
  players : list (Z * Raw.RawPlayerData);
  teams : list (Z * Entity.EntityInfo);
  leagues : list (Z * Entity.EntityInfo);
  nations : list (Z * Entity.EntityInfo)
}.
End Static.

Module TradePile.
Record AuctionInfo := mkAuctionInfo { itemData : Item.ItemData }.
Record TradePileResponse := mkTradePileResponse { auctionInfo : option (list AuctionInfo) }.
End TradePile.

(** [StorageResponse] and [DuplicatedResponse]: [{ itemData?: ItemData[] }]. *)
Record ItemsResponse := mkItemsResponse { itemData : option (list Item.ItemData) }.

(** JS [s || d] on a string: the empty string is falsy. *)
Definition or_default (s d : string) : string :=
  if String.eqb s EmptyString then d else s.

Section Lookups.
Variable staticData : Static.CachedData.

Definition entity_name (m : list (Z * Entity.EntityInfo)) (k : Z) : string :=
  match zmap_get m k with
  | Some e => or_default (Entity.name e) "Unknown"
  | None => "Unknown"
  end.

Definition entity_img (m : list (Z * Entity.EntityInfo)) (k : Z) : option string :=
  match zmap_get m k with
  | Some e => Entity.imgUrl e
  | None => None
  end.

Definition getTeamName (teamId : Z) : string := entity_name (Static.teams staticData) teamId.
Definition getLeagueName (leagueId : Z) : string := entity_name (Static.leagues staticData) leagueId.
Definition getNationName (nationId : Z) : string := entity_name (Static.nations staticData) nationId.
Definition getTeamImg (teamId : Z) : option string := entity_img (Static.teams staticData) teamId.
Definition getLeagueImg (leagueId : Z) : option string := entity_img (Static.leagues staticData) leagueId.
Definition getNationImg (nationId : Z) : option string := entity_img (Static.nations staticData) nationId.

(** [player.c || `${player.f} ${player.l}`] *)
Definition getPlayerName (assetId : Z) : string :=
  match zmap_get (Static.players staticData) assetId with
  | None => "Unknown"
  | Some player =>
      let full := (Raw.f player ++ " " ++ Raw.l player)%string in
      match Raw.c player with
      | Some c => or_default c full
      | None => full
      end
  end.

(** [item.possiblePositions?.join(' / ') || 'Unknown'] *)
Definition position_of (item : Item.ItemData) : string :=
  match Item.possiblePositions item with
  | Some ps => or_default (String.concat " / " ps) "Unknown"
  | None => "Unknown"
  end.

(** The object literal pushed for each item; the three loops of the
    source differ only in the [type] they write. *)
Definition processItem (t : PlayerType) (item : Item.ItemData) : ProcessedPlayer :=
  {| assetId := Item.assetId item;
     name := getPlayerName (Item.assetId item);
     rating := Item.rating item;
     position := position_of item;
     nation := getNationName (Item.nation item);
     nationId := Item.nation item;
     nationImg := getNationImg (Item.nation item);
     league := getLeagueName (Item.leagueId item);
     leagueId := Item.leagueId item;
     leagueImg := getLeagueImg (Item.leagueId item);
     team := getTeamName (Item.teamid item);
     teamId := Item.teamid item;
     teamImg := getTeamImg (Item.teamid item);
     type := t |}.
End Lookups.

(** [fetchTradePile], [fetchStorage], [fetchDuplicated]: [fetchWithRetry]
    with its default of 3 attempts. *)
Definition fetchTradePile (req : nat -> Attempt TradePile.TradePileResponse) :=
  fetchWithRetry req "Trade pile" 3.
Definition fetchStorage (req : nat -> Attempt ItemsResponse) :=
  fetchWithRetry req "Storage" 3.
Definition fetchDuplicated (req : nat -> Attempt ItemsResponse) :=
  fetchWithRetry req "Duplicated items" 3.

Record FetchResult := mkFetchResult {
  players : list ProcessedPlayer;
  warnings : list string
}.

(** The three item sources, named by the category their records get. *)
Definition all_sources : list PlayerType := [Transfer; Storage; Duplicated].

(** The text each [.catch] handler puts before the error message. *)
Definition failure_label (s : PlayerType) : string :=
  match s with
  | Transfer => "Trade pile failed: "
  | Storage => "Storage failed after 3 retries: "
  | Duplicated => "Duplicated items failed: "
  end.

Section ProcessPlayers.
Variable staticData : Static.CachedData.
Variable reqTradePile : nat -> Attempt TradePile.TradePileResponse.
Variable reqStorage : nat -> Attempt ItemsResponse.
Variable reqDuplicated : nat -> Attempt ItemsResponse.

Definition tradePileResult := snd (fetchTradePile reqTradePile).
Definition storageResult := snd (fetchStorage reqStorage).
Definition duplicatedResult := snd (fetchDuplicated reqDuplicated).

(** The rejection of a source's fetch, if it rejected. *)
Definition source_error (s : PlayerType) : option Error :=
  match s with
  | Transfer => match tradePileResult with inl e => Some e | inr _ => None end
  | Storage => match storageResult with inl e => Some e | inr _ => None end
  | Duplicated => match duplicatedResult with inl e => Some e | inr _ => None end
  end.

(** The [.catch] handler of source [s], run when [s] settles: it pushes to
    the shared [warnings] array if [s] rejected. *)
Definition on_settle (warnings : list string) (s : PlayerType) : list string :=
  match source_error s with
  | Some err => warnings ++ [(failure_label s ++ message err)%string]
  | None => warnings
  end.

Definition items_records (t : PlayerType) (r : ItemsResponse) : list ProcessedPlayer :=
  match itemData r with
  | Some items => map (processItem staticData t) items
  | None => []
  end.

Definition tradePile_records (r : TradePile.TradePileResponse) : list ProcessedPlayer :=
  match TradePile.auctionInfo r with
  | Some auctions =>
      map (fun auction => processItem staticData Transfer (TradePile.itemData auction)) auctions
  | None => []
  end.

(** [processPlayers(sid)] once [fetchStaticData()] has resolved to
    [staticData]; [settled] is the order in which the three requests of
    [Promise.all] settle. A rejected source is replaced by its empty
    response. *)
Definition processPlayers (settled : list PlayerType) : FetchResult :=
  let warnings := fold_left on_settle settled [] in
  let tradePile := match tradePileResult with
                   | inr r => r
                   | inl _ => TradePile.mkTradePileResponse (Some [])
                   end in
  let storage := match storageResult with inr r => r | inl _ => mkItemsResponse (Some []) end in
  let duplicated := match duplicatedResult with inr r => r | inl _ => mkItemsResponse (Some []) end in
  {| players := tradePile_records tradePile ++ items_records Storage storage ++
                items_records Duplicated duplicated;
     warnings := warnings |}.

(** Specification side. *)
Definition always_fails (s : PlayerType) : Prop :=
  match s with
  | Transfer => forall i, failed (reqTradePile i)
  | Storage => forall i, failed (reqStorage i)
  | Duplicated => forall i, failed (reqDuplicated i)
  end.

Definition succeeds (s : PlayerType) : Prop := source_error s = None.

(** The records built from source [s]'s own response when it resolved. *)
Definition source_records (s : PlayerType) : list ProcessedPlayer :=
  match s with
  | Transfer => match tradePileResult with inr r => tradePile_records r | inl _ => [] end
  | Storage => match storageResult with inr r => items_records Storage r | inl _ => [] end
  | Duplicated => match duplicatedResult with inr r => items_records Duplicated r | inl _ => [] end
  end.

(** The number of items in source [s]'s response when it resolved. *)
Definition source_item_count (s : PlayerType) : nat :=
  match s with
  | Transfer =>
      match tradePileResult with
      | inr r => match TradePile.auctionInfo r with Some l => length l | None => 0 end
      | inl _ => 0
      end
  | Storage =>
      match storageResult with
      | inr r => match itemData r with Some l => length l | None => 0 end
      | inl _ => 0
      end
  | Duplicated =>
      match duplicatedResult with
      | inr r => match itemData r with Some l => length l | None => 0 end
      | inl _ => 0
      end
  end.
End ProcessPlayers.

(** Concrete inputs for normalisation. *)
Definition sample_static : Static.CachedData :=
  Static.mkCachedData
    [(100, Raw.mkRawPlayerData 100 "Lionel" "Messi" None);
     (200, Raw.mkRawPlayerData 200 "Vinicius" "Junior" (Some "Vini Jr."%string))]%Z
    [(241, Entity.mkEntityInfo "FC Barcelona" (Some "clubs/dark/241.png"%string))]%Z
    [(53, Entity.mkEntityInfo "LALIGA EA SPORTS" (Some "leagues/dark/53.png"%string))]%Z
    [(52, Entity.mkEntityInfo "Argentina" (Some "flags/light/52.png"%string))]%Z.

Definition sample_item (aid : Z) (pos : option (list string)) : Item.ItemData :=
  Item.mkItemData aid 90 pos 52 53 241.

Definition storage_ok (i : nat) : Attempt ItemsResponse :=
  Ok (mkItemsResponse (Some [sample_item 100 (Some ["RW"; "CF"]%string);
                             sample_item 200 (Some ["LW"]%string)])).

Definition duplicated_ok (i : nat) : Attempt ItemsResponse :=
  Ok (mkItemsResponse (Some [sample_item 100 (Some ["RW"; "CF"]%string)])).

(* ================================================================= *)
(** ** SBC ranking ([fetchAllSBCsWithDetails], services/api.ts) *)

(** Integer fields of the API's JSON are [Z]; the vote counts and the
    computed percentages and scores are JS numbers, i.e. IEEE-754 binary64
    values, here Rocq's primitive [float]. *)
Module Sets.
Record SBCSet := mkSBCSet {
  setId : Z;
  name : string;
  description : string;
  challengesCount : Z;
  challengesCompletedCount : Z;
  categoryId : Z;
  repeatable : bool;
  repeats : Z;
  timesCompleted : Z
}.
End Sets.

Module Votes.
Record SBCVote := mkSBCVote { id : Z; likes : float; dislikes : float }.
End Votes.

Module Details.
Record SBCWithDetails := mkSBCWithDetails {
  setId : Z;
  name : string;
  challengesCount : Z;
  likes : float;
  dislikes : float;
  likePercent : float;
  rankScore : float
}.
End Details.

(** The loop that drops finished sets and rewrites [challengesCount] to
    the number of challenges left. *)
Fixpoint remaining_sets (allSets : list Sets.SBCSet) : list Sets.SBCSet :=
  match allSets with
  | [] => []
  | set :: rest =>
      let challengesRemaining := (Sets.challengesCount set - Sets.challengesCompletedCount set)%Z in
      let skip :=
        if Sets.repeatable set
        then (Sets.repeats set <=? Sets.timesCompleted set)%Z && (challengesRemaining =? 0)%Z
        else (challengesRemaining =? 0)%Z in
      if skip then remaining_sets rest
      else {| Sets.setId := Sets.setId set; Sets.name := Sets.name set;
              Sets.description := Sets.description set;
              Sets.challengesCount := challengesRemaining;
              Sets.challengesCompletedCount := Sets.challengesCompletedCount set;
              Sets.categoryId := Sets.categoryId set; Sets.repeatable := Sets.repeatable set;
              Sets.repeats := Sets.repeats set; Sets.timesCompleted := Sets.timesCompleted set |}
           :: remaining_sets rest
  end.

Open Scope float_scope.

(** JS [x || 0] on a number: [0], [-0] and [NaN] are falsy. *)
Definition num_or_zero (x : float) : float :=
  if PrimFloat.is_nan x || (x =? 0) then 0 else x.

(** The callback of [sets.map]: votes, like percentage and the Wilson score
    lower bound at z = 1.96. *)
Definition toDetails (votes : list (Z * Votes.SBCVote)) (set : Sets.SBCSet) : Details.SBCWithDetails :=
  let vote := zmap_get votes (Sets.setId set) in
  let likes := num_or_zero (match vote with Some v => Votes.likes v | None => 0 end) in
  let dislikes := num_or_zero (match vote with Some v => Votes.dislikes v | None => 0 end) in
  let totalVotes := likes + dislikes in
  let likePercent := if 0 <? totalVotes then (likes / totalVotes) * 100 else 0 in
  let z := 1.96 in
  let phat := if 0 <? totalVotes then likes / totalVotes else 0 in
  let rankScore :=
    if 0 <? totalVotes
    then (phat + z*z/(2*totalVotes)
          - z * PrimFloat.sqrt ((phat*(1-phat) + z*z/(4*totalVotes))/totalVotes))
         / (1 + z*z/totalVotes)
    else 0 in
  {| Details.setId := Sets.setId set;
     Details.name := Sets.name set;
     Details.challengesCount :=
       if (Sets.challengesCount set =? 0)%Z then 0%Z else Sets.challengesCount set;
     Details.likes := likes;
     Details.dislikes := dislikes;
     Details.likePercent := likePercent;
     Details.rankScore := rankScore |}.

(** The comparator [(a, b) => b.rankScore - a.rankScore]. *)
Definition rank_after (a b : Details.SBCWithDetails) : bool :=
  0 <? Details.rankScore b - Details.rankScore a.

Close Scope float_scope.

(** [sbcCache] and [SBC_CACHE_DURATION]. *)
Record SBCCache := mkSBCCache { data : list Details.SBCWithDetails; timestamp : Z }.

Definition SBC_CACHE_DURATION : Z := 5 * 60 * 1000.

(** What the environment gives one call: the clock at its start and when
    it stores, the answer to the sets request, and the votes map that
    [fetchSBCVotes] resolves to (it catches its own failures). *)
Record CallEnv := mkCallEnv {
  now_start : Z;
  sets_response : Error + list Sets.SBCSet;
  votes_response : list (Z * Votes.SBCVote);
  now_store : Z
}.

(** Network requests a call issues. *)
Inductive NetEvent := FetchSets | FetchVotes.

(** [sbcCache && Date.now() - sbcCache.timestamp < SBC_CACHE_DURATION] *)
Definition cache_hit (sbcCache : option SBCCache) (now : Z) : option (list Details.SBCWithDetails) :=
  match sbcCache with
  | Some c => if (now - timestamp c <? SBC_CACHE_DURATION)%Z then Some (data c) else None
  | None => None
  end.

(** One call of [fetchAllSBCsWithDetails]: the cache after the call, the
    requests issued, and the rejection or the array returned. *)
Definition fetchAllSBCsWithDetails (sbcCache : option SBCCache) (env : CallEnv)
  : option SBCCache * list NetEvent * (Error + list Details.SBCWithDetails) :=
  match cache_hit sbcCache (now_start env) with
  | Some cached => (sbcCache, [], inr cached)
  | None =>
      match sets_response env with
      | inl err => (sbcCache, [FetchSets], inl err)
      | inr allSets =>
          match remaining_sets allSets with
          | [] => (sbcCache, [FetchSets], inr [])
          | sets =>
              let result := sort_by rank_after (map (toDetails (votes_response env)) sets) in
              (Some {| data := result; timestamp := now_store env |},
               [FetchSets; FetchVotes], inr result)
          end
      end
  end.

(** [clearCache()] as far as the SBC cache goes. *)
Definition clearCache (sbcCache : option SBCCache) : option SBCCache := None.

(** Specification side of the completion filter, in the claim's words. *)
Definition excluded (set : Sets.SBCSet) : bool :=
  let remaining := (Sets.challengesCount set - Sets.challengesCompletedCount set)%Z in
  (Sets.repeatable set && (Sets.repeats set <=? Sets.timesCompleted set)%Z && (remaining =? 0)%Z)
  || (negb (Sets.repeatable set) && (remaining =? 0)%Z).

Definition with_remaining (set : Sets.SBCSet) : Sets.SBCSet :=
  Sets.mkSBCSet (Sets.setId set) (Sets.name set) (Sets.description set)
    (Sets.challengesCount set - Sets.challengesCompletedCount set)%Z
    (Sets.challengesCompletedCount set) (Sets.categoryId set) (Sets.repeatable set)
    (Sets.repeats set) (Sets.timesCompleted set).

(** Concrete SBC inputs: a repeatable set, 2 repeats, all 5 challenges done. *)
Definition sbc_set (id timesCompleted : Z) : Sets.SBCSet :=
  Sets.mkSBCSet id "Marquee Matchups" "" 5 5 1 true 2 timesCompleted.

Definition sbc_votes (id : Z) (likes dislikes : float) : list (Z * Votes.SBCVote) :=
  [(id, Votes.mkSBCVote id likes dislikes)].

Definition score_of (votes : list (Z * Votes.SBCVote)) : float :=
  Details.rankScore (toDetails votes (sbc_set 7 1)).

(** A float from a natural number. *)
Definition float_of_nat (n : nat) : float := PrimFloat.of_uint63 (Uint63.of_Z (Z.of_nat n)).

Definition env_at (t : Z) (sets : Error + list Sets.SBCSet) : CallEnv :=
  mkCallEnv t sets [] (t + 250)%Z.

(* ================================================================= *)
(** ** Static data ([fetchFutGGData], [fetchStaticData], services/api.ts) *)

(** [map.set(k, v)] on a JS [Map<number, V>]: a key already present keeps
    its place and takes the new value, a new key goes last. *)
Fixpoint zmap_set {V} (m : list (Z * V)) (k : Z) (v : V) : list (Z * V) :=
  match m with
  | [] => [(k, v)]
  | (k', v') :: m' => if Z.eqb k' k then (k', v) :: m' else (k', v') :: zmap_set m' k v
  end.

(** [`${n}`] for an integer. *)
Definition string_of_Z (z : Z) : string :=
  match z with
  | Zneg p => "-" ++ string_of_nat (Pos.to_nat p)
  | _ => string_of_nat (Z.to_nat z)
  end.

Definition EA_IMAGES_URL : string :=
  "https://www.ea.com/ea-sports-fc/ultimate-team/web-app/content/26E4D4D6-8DBB-4A9A-BD99-9C47D3AA341D/2026/fut/items/images/mobile".

Definition getClubImageUrl (clubId : Z) : string :=
  EA_IMAGES_URL ++ "/clubs/dark/" ++ string_of_Z clubId ++ ".png".

Definition getNationImageUrl (nationId : Z) : string :=
  EA_IMAGES_URL ++ "/flags/light/" ++ string_of_Z nationId ++ ".png".

Definition getLeagueImageUrl (leagueId : Z) : string :=
  EA_IMAGES_URL ++ "/leagues/dark/" ++ string_of_Z leagueId ++ ".png".

Module Club.
Record FutGGClub := mkFutGGClub {
  eaId : Z;
  name : string;
  siblingClubEaId : option Z;
  imageUrl : option string
}.
End Club.

Module Nation.
Record FutGGNation := mkFutGGNation { eaId : Z; name : string; imageUrl : option string }.
End Nation.

Module League.
Record FutGGLeague := mkFutGGLeague { eaId : Z; name : string; imageUrl : option string }.
End League.

(** [FutGGResponse.data], and the three maps [fetchFutGGData] returns. *)
Module FutGG.
Record FutGGData := mkFutGGData {
  clubs : list Club.FutGGClub;
  nations : list Nation.FutGGNation;
  leagues : list League.FutGGLeague
}.
Record FutGGMaps := mkFutGGMaps {
  teams : list (Z * Entity.EntityInfo);
  leagues_map : list (Z * Entity.EntityInfo);
  nations_map : list (Z * Entity.EntityInfo)
}.
End FutGG.

(** One iteration of the clubs loop: the club's own id, then its sibling
    id when [club.siblingClubEaId] is truthy (present and not 0). *)
Definition club_step (teams : list (Z * Entity.EntityInfo)) (club : Club.FutGGClub)
  : list (Z * Entity.EntityInfo) :=
  let teams := zmap_set teams (Club.eaId club)
                 (Entity.mkEntityInfo (Club.name club) (Some (getClubImageUrl (Club.eaId club)))) in
  match Club.siblingClubEaId club with
  | Some s =>
      if (s =? 0)%Z then teams
      else zmap_set teams s (Entity.mkEntityInfo (Club.name club) (Some (getClubImageUrl s)))
  | None => teams
  end.

Definition nation_step (nations : list (Z * Entity.EntityInfo)) (nation : Nation.FutGGNation) :=
  zmap_set nations (Nation.eaId nation)
    (Entity.mkEntityInfo (Nation.name nation) (Some (getNationImageUrl (Nation.eaId nation)))).

Definition league_step (leagues : list (Z * Entity.EntityInfo)) (league : League.FutGGLeague) :=
  zmap_set leagues (League.eaId league)
    (Entity.mkEntityInfo (League.name league) (Some (getLeagueImageUrl (League.eaId league)))).

(** [fetchFutGGData()] once its request has resolved to [{ data }]. *)
Definition fetchFutGGData (data : FutGG.FutGGData) : FutGG.FutGGMaps :=
  {| FutGG.teams := fold_left club_step (FutGG.clubs data) [];
     FutGG.nations_map := fold_left nation_step (FutGG.nations data) [];
     FutGG.leagues_map := fold_left league_step (FutGG.leagues data) [] |}.

(** The map writes one club performs, as (key, value) pairs. *)
Definition club_entries (club : Club.FutGGClub) : list (Z * Entity.EntityInfo) :=
  (Club.eaId club,
   Entity.mkEntityInfo (Club.name club) (Some (getClubImageUrl (Club.eaId club))))
  :: match Club.siblingClubEaId club with
     | Some s =>
         if (s =? 0)%Z then []
         else [(s, Entity.mkEntityInfo (Club.name club) (Some (getClubImageUrl s)))]
     | None => []
     end.

(** [PlayersJsonResponse]: two optional arrays of catalog entries. *)
Record PlayersJsonResponse := mkPlayersJsonResponse {
  LegendsPlayers : option (list Raw.RawPlayerData);
  Players : option (list Raw.RawPlayerData)
}.

Definition or_nil {A} (l : option (list A)) : list A :=
  match l with Some l => l | None => [] end.

(** [[...(LegendsPlayers || []), ...(Players || [])]] *)
Definition allPlayers (r : PlayersJsonResponse) : list Raw.RawPlayerData :=
  or_nil (LegendsPlayers r) ++ or_nil (Players r).

Definition playersMap (r : PlayersJsonResponse) : list (Z * Raw.RawPlayerData) :=
  fold_left (fun m player => zmap_set m (Raw.id player) player) (allPlayers r) [].

(** The body of the async function stored in [staticDataPromise], after
    [Promise.all] resolved. *)
Definition build_cached (playersResponse : PlayersJsonResponse) (futgg : FutGG.FutGGData)
  : Static.CachedData :=
  let maps := fetchFutGGData futgg in
  {| Static.players := playersMap playersResponse;
     Static.teams := FutGG.teams maps;
     Static.leagues := FutGG.leagues_map maps;
     Static.nations := FutGG.nations_map maps |}.

(** The module-level variables [cachedData] and [staticDataPromise]; a
    promise is represented by what it settles to. *)
Record StaticState := mkStaticState {
  cachedData : option Static.CachedData;
  staticDataPromise : option (Error + Static.CachedData)
}.

Definition static_initial : StaticState := mkStaticState None None.

(** What [Promise.all] of the two requests would settle to if they were
    issued now: a rejection or both responses. *)
Definition StaticLoad : Type := Error + (PlayersJsonResponse * FutGG.FutGGData).

(** One call of [fetchStaticData()]: the new state, whether it issued the
    two requests, and what the returned promise settles to. *)
Definition fetchStaticData (st : StaticState) (load : StaticLoad)
  : StaticState * bool * (Error + Static.CachedData) :=
  match cachedData st with
  | Some d => (st, false, inr d)
  | None =>
      match staticDataPromise st with
      | Some p => (st, false, p)
      | None =>
          let outcome := match load with
                         | inl e => inl e
                         | inr (pr, fr) => inr (build_cached pr fr)
                         end in
          (mkStaticState (match outcome with inr d => Some d | inl _ => None end) (Some outcome),
           true, outcome)
      end
  end.

(** [clearCache()] as far as the static data goes. *)
Definition clearStatic (st : StaticState) : StaticState := mkStaticState None None.

Inductive StaticOp := CallStatic (load : StaticLoad) | ClearCache.

(** A sequence of calls and cache clears: the final state, the number of
    calls that issued requests, and what each call returned. *)
Fixpoint run_static (st : StaticState) (ops : list StaticOp)
  : StaticState * nat * list (Error + Static.CachedData) :=
  match ops with
  | [] => (st, O, [])
  | CallStatic load :: ops' =>
      let '(st1, issued, r) := fetchStaticData st load in
      let '(st2, n, rs) := run_static st1 ops' in
      (st2, ((if issued then 1 else 0) + n)%nat, r :: rs)
  | ClearCache :: ops' => run_static (clearStatic st) ops'
  end.

Definition is_clear (op : StaticOp) : bool :=
  match op with ClearCache => true | CallStatic _ => false end.

(** Concrete fut.gg and catalog data. *)
Definition sample_futgg : FutGG.FutGGData :=
  FutGG.mkFutGGData
    [Club.mkFutGGClub 241 "FC Barcelona" (Some 0%Z) None;
     Club.mkFutGGClub 73 "Paris SG" (Some 111%Z) None]
    [Nation.mkFutGGNation 52 "Argentina" None]
    [League.mkFutGGLeague 53 "LALIGA EA SPORTS" None].

Definition sample_catalog : PlayersJsonResponse :=
  mkPlayersJsonResponse
    (Some [Raw.mkRawPlayerData 100 "Lionel" "Messi" None])
    (Some [Raw.mkRawPlayerData 100 "Lionel" "Messi" (Some "Leo Messi"%string);
           Raw.mkRawPlayerData 200 "Vinicius" "Junior" (Some "Vini Jr."%string)]).

(* ================================================================= *)
(** ** [corsRequest] (services/api.ts) *)

(** What [fetch] gives [corsRequest]: a rejection, or a response with its
    [ok], [status] and [statusText], and what [response.json()] yields.
    The URL and headers the request carries are not modelled. *)
Inductive FetchResponse (T : Type) :=
| NetworkError (t : Thrown)
| HttpResponse (ok : bool) (status : nat) (statusText : string) (body : Attempt T).
Arguments NetworkError {T} t.
Arguments HttpResponse {T} ok status statusText body.

(** [corsRequest(url, options)]: a non-ok response throws
    [new Error(`API Error: ${response.status} ${response.statusText}`)]. *)
Definition corsRequest {T} (r : FetchResponse T) : Attempt T :=
  match r with
  | NetworkError t => Fail t
  | HttpResponse ok status statusText body =>
      if ok then body
      else Fail (ThrownError (mkError ("API Error: " ++ string_of_nat status ++ " " ++ statusText)))
  end.

(** A server that answers 502 twice, then 503. *)
Definition gateway_then_unavailable (i : nat) : FetchResponse ItemsResponse :=
  if (i <? 3)%nat then HttpResponse false 502 "Bad Gateway" (Ok (mkItemsResponse None))
  else HttpResponse false 503 "Service Unavailable" (Ok (mkItemsResponse None)).

Definition gateway_status (i : nat) : nat := if (i <? 3)%nat then 502%nat else 503%nat.
Definition gateway_text (i : nat) : string :=
  if (i <? 3)%nat then "Bad Gateway" else "Service Unavailable".

(* ================================================================= *)
(** ** SBC sets, votes and challenges (services/api.ts) *)

Module Category.
Record SBCCategory := mkSBCCategory {
  categoryId : Z;
  name : string;
  sets : option (list Sets.SBCSet)
}.
End Category.

(** [SBCSetsResponse]; [None] stands for a missing or non-array field. *)
Record SBCSetsResponse := mkSBCSetsResponse { categories : option (list Category.SBCCategory) }.

(** [fetchSBCSets(sid)] once its request has resolved to [response]. *)
Definition fetchSBCSets (response : SBCSetsResponse) : list Sets.SBCSet :=
  match categories response with
  | Some cs =>
      fold_left (fun allSets category =>
                   match Category.sets category with
                   | Some s => allSets ++ s
                   | None => allSets
                   end) cs []
  | None => []
  end.

(** JS white space of the ASCII range: TAB, LF, VT, FF, CR and space. *)
Definition is_js_space (c : ascii) : bool :=
  let n := nat_of_ascii c in ((n =? 32) || ((9 <=? n) && (n <=? 13)))%nat.

Fixpoint trim_start (s : string) : string :=
  match s with
  | String c s' => if is_js_space c then trim_start s' else s
  | EmptyString => EmptyString
  end.

(** The longest prefix of decimal digits, as a number; [None] when the
    prefix is empty. *)
Fixpoint decimal_prefix (s : string) (acc : Z) (seen : bool) : option Z :=
  match s with
  | String c s' =>
      let n := nat_of_ascii c in
      if ((48 <=? n) && (n <=? 57))%nat
      then decimal_prefix s' (acc * 10 + Z.of_nat (n - 48))%Z true
      else if seen then Some acc else None
  | EmptyString => if seen then Some acc else None
  end.

(** [parseInt(s, 10)] on an ASCII string: leading white space, an optional
    sign, then the longest run of decimal digits; [None] is [NaN]. The
    value is exact (JS rounds results beyond 2^53 to a double). *)
Definition parseInt10 (s : string) : option Z :=
  match trim_start s with
  | String "-" s' => option_map Z.opp (decimal_prefix s' 0 false)
  | String "+" s' => decimal_prefix s' 0 false
  | s' => decimal_prefix s' 0 false
  end.

(** An element of the votes array as the code reads it. *)
Module RawVote.
Record RawVote := mkRawVote { dataId : string; likes : option float; disLikes : option float }.
End RawVote.

(** JS [x || 0] on a possibly missing number. *)
Definition opt_or_zero (x : option float) : float :=
  match x with Some x => num_or_zero x | None => 0%float end.

(** The body of the loop over [votesArray]. *)
Definition vote_step (votesMap : list (Z * Votes.SBCVote)) (vote : RawVote.RawVote)
  : list (Z * Votes.SBCVote) :=
  match parseInt10 (RawVote.dataId vote) with
  | Some id =>
      zmap_set votesMap id
        (Votes.mkSBCVote id (opt_or_zero (RawVote.likes vote)) (opt_or_zero (RawVote.disLikes vote)))
  | None => votesMap
  end.

(** [fetchSBCVotes(ids)]: whether it issues a request, and the map it
    resolves to. The request's outcome is a rejection, a JSON array
    ([Some votes]) or another JSON value ([None]). *)
Definition fetchSBCVotes (ids : list Z) (response : Attempt (option (list RawVote.RawVote)))
  : bool * list (Z * Votes.SBCVote) :=
  match ids with
  | [] => (false, [])
  | _ :: _ =>
      (true, match response with
             | Fail _ => []
             | Ok r => fold_left vote_step (or_nil r) []
             end)
  end.

(** The details of a set with no vote in the map. *)
Definition unvoted_details (set : Sets.SBCSet) : Details.SBCWithDetails :=
  {| Details.setId := Sets.setId set;
     Details.name := Sets.name set;
     Details.challengesCount :=
       if (Sets.challengesCount set =? 0)%Z then 0%Z else Sets.challengesCount set;
     Details.likes := 0%float;
     Details.dislikes := 0%float;
     Details.likePercent := 0%float;
     Details.rankScore := 0%float |}.

Module Elig.
Record SBCChallengeEligibility := mkSBCChallengeEligibility {
  type : string;
  eligibilitySlot : Z;
  eligibilityKey : Z;
  eligibilityValue : Z
}.
End Elig.

Module Challenge.
Record SBCChallenge := mkSBCChallenge {
  challengeId : Z;
  name : string;
  formation : string;
  description : string;
  status : string;
  elgReq : option (list Elig.SBCChallengeEligibility)
}.
End Challenge.

Module ChallengeDetail.
Record SBCChallengeDetail := mkSBCChallengeDetail {
  challengeId : Z;
  name : string;
  formation : string;
  teamRating : option Z
}.
End ChallengeDetail.

Record SBCChallengesResponse := mkSBCChallengesResponse {
  challenges : option (list Challenge.SBCChallenge)
}.

(** [fetchSBCChallenges(sid, setId)] once its request has resolved. *)
Definition fetchSBCChallenges (response : SBCChallengesResponse) : list Challenge.SBCChallenge :=
  or_nil (challenges response).

Definition is_team_rating (req : Elig.SBCChallengeEligibility) : bool :=
  String.eqb (Elig.type req) "TEAM_RATING_1_TO_100".

(** [fetchSBCSetChallengeDetails(sid, setId)]. *)
Definition fetchSBCSetChallengeDetails (response : SBCChallengesResponse)
  : list ChallengeDetail.SBCChallengeDetail :=
  map (fun challenge =>
         let teamRatingReq :=
           match Challenge.elgReq challenge with
           | Some reqs => find is_team_rating reqs
           | None => None
           end in
         {| ChallengeDetail.challengeId := Challenge.challengeId challenge;
            ChallengeDetail.name := Challenge.name challenge;
            ChallengeDetail.formation := Challenge.formation challenge;
            ChallengeDetail.teamRating := option_map Elig.eligibilityValue teamRatingReq |})
      (fetchSBCChallenges response).

(** Concrete SBC inputs. *)
Definition sample_votes : list RawVote.RawVote :=
  [RawVote.mkRawVote " 7" (Some 10%float) None;
   RawVote.mkRawVote "n/a" (Some 3%float) (Some 1%float);
   RawVote.mkRawVote "7" (Some 12%float) (Some 2%float)].

Definition sample_categories : SBCSetsResponse :=
  mkSBCSetsResponse (Some [Category.mkSBCCategory 1 "Upgrades" (Some [sbc_set 7 0; sbc_set 8 2]);
                           Category.mkSBCCategory 2 "Icons" None;
                           Category.mkSBCCategory 3 "Players" (Some [sbc_set 9 1])]).

Definition sample_challenge : Challenge.SBCChallenge :=
  Challenge.mkSBCChallenge 1 "Top Form" "4-3-3" "Squad rating" "NOT_STARTED"
    (Some [Elig.mkSBCChallengeEligibility "PLAYER_COUNT" 0 1 11;
           Elig.mkSBCChallengeEligibility "TEAM_RATING_1_TO_100" 1 2 84;
           Elig.mkSBCChallengeEligibility "TEAM_RATING_1_TO_100" 2 3 86]).

(* ================================================================= *)
(** ** Statistics of the players page (App.tsx) *)

(** [uniquePlayersCount], [totalCardsCount] and [duplicatesCount]. *)
Definition uniquePlayersCount (filteredPlayers : list AggregatedPlayer) : nat :=
  length filteredPlayers.

Definition totalCardsCount (filteredPlayers : list AggregatedPlayer) : nat :=
  fold_left (fun sum p => sum + copies p) filteredPlayers 0.

Definition duplicatesCount (filteredPlayers : list AggregatedPlayer) : nat :=
  fold_left (fun sum p => sum + (copies p - 1))
    (filter (fun p => Nat.ltb 1 (copies p)) filteredPlayers) 0.

(** [RatingDistributionChart]: the three ranges and their counts. *)
Definition rating_ranges : list (string * Z * Z) :=
  [("87+"%string, 87%Z, 99%Z); ("84-86"%string, 84%Z, 86%Z); ("â‰¤83"%string, 0%Z, 83%Z)].

Definition ratingDistribution (players : list AggregatedPlayer) : list (string * nat) :=
  map (fun '(label, min, max) =>
         (label, length (filter (fun p => (min <=? rating (base p)) && (rating (base p) <=? max))%Z
                                players)))
      rating_ranges.

(** [distribution.reduce((sum, r) => sum + r.count, 0)] *)
Definition distribution_total (distribution : list (string * nat)) : nat :=
  fold_left (fun sum r => sum + snd r) distribution 0.

(** [TypeDistributionChart]: [counts[type] += p.copies] for every type of
    every player. *)
Definition type_count_step (counts : nat * nat * nat) (p : AggregatedPlayer) : nat * nat * nat :=
  fold_left (fun '(tr, st, du) type =>
               match type with
               | Transfer => (tr + copies p, st, du)
               | Storage => (tr, st + copies p, du)
               | Duplicated => (tr, st, du + copies p)
               end) (types p) counts.

Definition typeDistribution (players : list AggregatedPlayer) : list (string * nat) :=
  let '(tr, st, du) := fold_left type_count_step players (0, 0, 0) in
  [("Transfer"%string, tr); ("Storage"%string, st); ("Duplicated"%string, du)].

(** [items.slice(start, end)] for [0 <= start]. *)
Definition slice {A} (items : list A) (start end_ : nat) : list A :=
  firstn (end_ - start) (skipn start items).

(** [Math.ceil(items.length / pageSize)]; the quotient of two integers
    below 2^50 is never rounded across an integer, so this is the integer
    ceiling. *)
Definition totalPages (length pageSize : nat) : nat :=
  (length + pageSize - 1) / pageSize.

(** [items.slice(page * pageSize, (page + 1) * pageSize)] *)
Definition currentItems {A} (items : list A) (pageSize page : nat) : list A :=
  slice items (page * pageSize) ((page + 1) * pageSize).

(** The pages shown by clicking through [0 .. totalPages - 1]. *)
Definition all_pages {A} (items : list A) (pageSize : nat) : list (list A) :=
  map (currentItems items pageSize) (seq 0 (totalPages (length items) pageSize)).

(** The [page] state of [PaginatedTopList] (page size 5): a click on an
    enabled chevron, or a new [items] list, after which the effect
    [setPage(0)] has run. ([SBCList] has no such effect: its page is kept
    when [sbcs] changes, so this model is not the one of [SBCList].) *)
Inductive PagerEvent := PrevClick | NextClick | NewItems (length : nat).

Record Pager := mkPager { items_length : nat; page : nat }.

Definition pager_step (pageSize : nat) (st : Pager) (ev : PagerEvent) : Pager :=
  let tp := totalPages (items_length st) pageSize in
  match ev with
  | PrevClick =>
      (* shown when totalPages > 1, disabled when page === 0 *)
      if (1 <? tp)%nat && negb (page st =? 0)%nat
      then mkPager (items_length st) (page st - 1) else st
  | NextClick =>
      (* shown when totalPages > 1, disabled when page >= totalPages - 1 *)
      if (1 <? tp)%nat && negb (Z.of_nat (page st) >=? Z.of_nat tp - 1)%Z
      then mkPager (items_length st) (page st + 1) else st
  | NewItems n => mkPager n 0
  end.

(** A JS [Map<string, V>] read with [get] and written with [set]. *)
Fixpoint smap_get {V} (m : list (string * V)) (k : string) : option V :=
  match m with
  | [] => None
  | (k', v) :: m' => if String.eqb k' k then Some v else smap_get m' k
  end.

Fixpoint smap_set {V} (m : list (string * V)) (k : string) (v : V) : list (string * V) :=
  match m with
  | [] => [(k, v)]
  | (k', v') :: m' => if String.eqb k' k then (k', v) :: m' else (k', v') :: smap_set m' k v
  end.

Module Top.
Record TopItem := mkTopItem { name : string; count : nat; imgUrl : option string }.
End Top.

(** The comparator [sortByCount = (a, b) => b.count - a.count]. *)
Definition count_after (a b : Top.TopItem) : bool := Nat.ltb (Top.count a) (Top.count b).

(** The club, nation or league part of the [topStats] loop:
    [get(key) || { count: 0, imgUrl }], [count += 1], [set(key, data)]. *)
Definition entity_count_step (key : AggregatedPlayer -> string) (img : AggregatedPlayer -> option string)
    (counts : list (string * (nat * option string))) (player : AggregatedPlayer)
  : list (string * (nat * option string)) :=
  let data := match smap_get counts (key player) with
              | Some d => d
              | None => (0%nat, img player)
              end in
  smap_set counts (key player) (S (fst data), snd data).

(** [Array.from(counts.entries()).map(...).sort(sortByCount)] *)
Definition top_entities (key : AggregatedPlayer -> string) (img : AggregatedPlayer -> option string)
    (filteredPlayers : list AggregatedPlayer) : list Top.TopItem :=
  sort_by count_after
    (map (fun '(n, (c, i)) => Top.mkTopItem n c i)
         (fold_left (entity_count_step key img) filteredPlayers [])).

(** [String.prototype.trim] on an ASCII string. *)
Fixpoint trim_end (s : string) : string :=
  match s with
  | EmptyString => EmptyString
  | String c s' =>
      let r := trim_end s' in
      if is_js_space c && String.eqb r EmptyString then EmptyString else String c r
  end.

Definition trim (s : string) : string := trim_end (trim_start s).

(** The position part of the loop: for each [pos] of
    [player.position.split(' / ')], [trimmedPos = pos.trim()] gets one more. *)
Definition position_count_step (positionCounts : list (string * nat)) (player : AggregatedPlayer)
  : list (string * nat) :=
  fold_left (fun m pos =>
               let trimmedPos := trim pos in
               smap_set m trimmedPos (match smap_get m trimmedPos with Some c => c | None => 0 end + 1)%nat)
            (split_slash (position (base player))) positionCounts.

Definition top_positions (filteredPlayers : list AggregatedPlayer) : list Top.TopItem :=
  sort_by count_after
    (map (fun '(n, c) => Top.mkTopItem n c None)
         (fold_left position_count_step filteredPlayers [])).

Record TopStats := mkTopStats {
  topClubs : list Top.TopItem;
  topNations : list Top.TopItem;
  topLeagues : list Top.TopItem;
  topPositions : list Top.TopItem
}.

(** [topStats]; the loop writes four independent maps, each is its own
    fold here. *)
Definition topStats (filteredPlayers : list AggregatedPlayer) : TopStats :=
  {| topClubs := top_entities (fun p => team (base p)) (fun p => teamImg (base p)) filteredPlayers;
     topNations := top_entities (fun p => nation (base p)) (fun p => nationImg (base p)) filteredPlayers;
     topLeagues := top_entities (fun p => league (base p)) (fun p => leagueImg (base p)) filteredPlayers;
     topPositions := top_positions filteredPlayers |}.

(** The trimmed pieces of a player's position string. *)
Definition position_pieces (player : AggregatedPlayer) : list string :=
  map trim (split_slash (position (base player))).

(** The counting pattern shared by the [topStats] maps: the entry of the
    key of [x] is [upd] of its old value, or [init x] when absent. *)
Section Counting.
Context {A V : Type} (keyf : A -> string) (upd : V -> V) (init : A -> V).

Definition count_step (m : list (string * V)) (x : A) : list (string * V) :=
  smap_set m (keyf x) (match smap_get m (keyf x) with Some v => upd v | None => init x end).
End Counting.

Definition entity_upd (d : nat * option string) : nat * option string := (S (fst d), snd d).

(** Concrete players for the statistics. *)
Definition stats_player (aid : Z) (club pos : string) (copies : nat) (types : list PlayerType)
  : AggregatedPlayer :=
  mkAggregatedPlayer
    (mkProcessedPlayer aid "Player" 85 pos "Argentina" 52 None "LALIGA EA SPORTS" 53 None
       club 241 (Some ("clubs/dark/" ++ club)%string) Transfer)
    copies types.

Definition sample_stats_players : list AggregatedPlayer :=
  [stats_player 1 "FC Barcelona" "ST / CF" 2 [Transfer; Storage];
   stats_player 2 "Real Madrid" "CB" 1 [Storage];
   stats_player 3 "FC Barcelona" "CF" 1 [Duplicated]].

(** What a call of [fetchStaticData] returns without issuing requests, in
    a state whose promise has been created. *)
Definition static_settled (st : StaticState) (p : Error + Static.CachedData) : Prop :=
  staticDataPromise st = Some p /\
  (cachedData st = None \/ exists d, cachedData st = Some d /\ p = inr d).

Definition sum3 (c : nat * nat * nat) : nat := let '(a, b, d) := c in (a + b + d)%nat.

Definition pager_inv (pageSize : nat) (st : Pager) : Prop :=
  page st = 0%nat \/ (page st < totalPages (items_length st) pageSize)%nat.

(* ================================================================= *)
(** * Proofs *)

(* ----------------------------------------------------------------- *)
(** ** Aggregation *)

Section UndupFacts.
Context {A : Type} (eq_dec : forall a b : A, {a = b} + {a <> b}).

Lemma undup_In (x : A) (l : list A) : In x (undup eq_dec l) <-> In x l.
Proof.
  induction l as [|y l IH]; simpl; [tauto|].
  split.
  - intros [->|H]; [now left|]. apply in_remove in H as [H _]. right. now apply IH.
  - intros [->|H]; [now left|].
    destruct (eq_dec y x) as [->|Hne]; [now left|].
    right. apply in_in_remove; [congruence|]. now apply IH.
Qed.

Lemma NoDup_remove_any (x : A) (l : list A) : NoDup l -> NoDup (remove eq_dec x l).
Proof.
  induction l as [|y l IH]; simpl; intros Hnd; [constructor|].
  inversion Hnd as [|? ? Hy Hl]; subst.
  destruct (eq_dec x y); [now apply IH|].
  constructor; [|now apply IH].
  intros Hin. apply in_remove in Hin as [Hin _]. contradiction.
Qed.

Lemma undup_NoDup (l : list A) : NoDup (undup eq_dec l).
Proof.
  induction l as [|y l IH]; simpl; constructor.
  - apply remove_In.
  - now apply NoDup_remove_any.
Qed.

Lemma undup_snoc (l : list A) (x : A) :
  undup eq_dec (l ++ [x]) =
  if in_dec eq_dec x l then undup eq_dec l else undup eq_dec l ++ [x].
Proof.
  induction l as [|y l IH]; simpl; [reflexivity|].
  rewrite IH.
  destruct (in_dec eq_dec x l) as [Hin|Hnin];
    destruct (eq_dec y x) as [->|Hne]; simpl; try reflexivity.
  - rewrite remove_app. simpl. destruct (eq_dec x x); [|congruence].
    rewrite app_nil_r. reflexivity.
  - rewrite remove_app. simpl. destruct (eq_dec y x); [congruence|]. reflexivity.
Qed.
End UndupFacts.

Lemma includes_In (l : list PlayerType) (t : PlayerType) :
  includes l t = true <-> In t l.
Proof.
  unfold includes. rewrite existsb_exists. split.
  - intros [x [Hx Heq]]. unfold PlayerType_eqb in Heq.
    destruct (PlayerType_eq_dec t x); [now subst|discriminate].
  - intros H. exists t. split; [assumption|].
    unfold PlayerType_eqb. destruct (PlayerType_eq_dec t t); congruence.
Qed.

Lemma map_get_In {V} (m : list ((Z * Z) * V)) k v :
  map_get m k = Some v -> In (k, v) m.
Proof.
  induction m as [|[k' v'] m IH]; simpl; [discriminate|].
  destruct (key_eq_dec k' k) as [->|]; [injection 1 as ->; now left|].
  intros H. right. now apply IH.
Qed.

Lemma map_get_None {V} (m : list ((Z * Z) * V)) k :
  map_get m k = None -> ~ In k (map fst m).
Proof.
  induction m as [|[k' v'] m IH]; simpl; [tauto|].
  destruct (key_eq_dec k' k) as [->|Hne]; [discriminate|].
  intros H [->|Hin]; [congruence|]. now apply (IH H).
Qed.

Lemma map_set_keys {V} (m : list ((Z * Z) * V)) k v :
  map fst (map_set m k v) =
  if in_dec key_eq_dec k (map fst m) then map fst m else map fst m ++ [k].
Proof.
  induction m as [|[k' v'] m IH]; simpl; [reflexivity|].
  destruct (key_eq_dec k' k) as [->|Hne]; simpl.
  - destruct (key_eq_dec k k); [reflexivity|congruence].
  - rewrite IH. destruct (key_eq_dec k' k); [congruence|].
    destruct (in_dec key_eq_dec k (map fst m)); reflexivity.
Qed.

Lemma map_set_In {V} (m : list ((Z * Z) * V)) k v k' v' :
  NoDup (map fst m) ->
  In (k', v') (map_set m k v) -> (k' = k /\ v' = v) \/ (k' <> k /\ In (k', v') m).
Proof.
  induction m as [|[k0 v0] m IH]; simpl; intros Hnd.
  - intros [H|[]]. injection H as -> ->. now left.
  - inversion Hnd as [|? ? Hk0 Hnd']; subst.
    destruct (key_eq_dec k0 k) as [->|Hne]; simpl.
    + intros [H|H]; [injection H as -> ->; now left|].
      right. split; [|now right].
      intros ->. apply Hk0. now apply (in_map fst) in H.
    + intros [H|H].
      * injection H as -> ->. right. split; [assumption|now left].
      * destruct (IH Hnd' H) as [[-> ->]|[Hne' Hin]]; [now left|].
        right. split; [assumption|now right].
Qed.

Lemma records_with_key_snoc k pre p :
  records_with_key k (pre ++ [p]) =
  records_with_key k pre ++ (if key_eq_dec (key p) k then [p] else []).
Proof.
  unfold records_with_key. rewrite filter_app. simpl.
  destruct (key_eq_dec (key p) k); reflexivity.
Qed.

Lemma records_with_key_nil k pre :
  ~ In k (map key pre) -> records_with_key k pre = [].
Proof.
  induction pre as [|q pre IH]; [reflexivity|].
  unfold records_with_key in *. cbn [filter map In].
  intros Hn. destruct key_eq_dec as [Heq|]; [tauto|].
  apply IH. tauto.
Qed.

(** The loop invariant of [aggregatedPlayers] after a prefix [pre] of the
    input: the map's keys are the distinct keys of [pre] in first-seen order,
    and each entry counts and tags exactly the records of its key. *)
Definition agg_inv (pre : list ProcessedPlayer) (m : list ((Z * Z) * AggregatedPlayer)) : Prop :=
  map fst m = undup key_eq_dec (map key pre) /\
  forall k v, In (k, v) m ->
    agg_key v = k /\
    copies v = length (records_with_key k pre) /\
    types v = undup PlayerType_eq_dec (map type (records_with_key k pre)).

Lemma agg_inv_step pre m p :
  agg_inv pre m -> agg_inv (pre ++ [p]) (aggregate_step m p).
Proof.
  intros [Hkeys Hent].
  assert (Hnd : NoDup (map fst m)) by (rewrite Hkeys; apply undup_NoDup).
  unfold aggregate_step.
  destruct (map_get m (key p)) as [ex|] eqn:Hget.
  - apply map_get_In in Hget as Hin.
    assert (Hk : In (key p) (map key pre)).
    { rewrite <- (undup_In key_eq_dec), <- Hkeys. now apply (in_map fst) in Hin. }
    split.
    + rewrite map_set_keys, map_app; cbn [map]; rewrite undup_snoc.
      destruct (in_dec key_eq_dec (key p) (map fst m)) as [_|Hn];
        [|exfalso; apply Hn; now apply (in_map fst) in Hin].
      destruct (in_dec key_eq_dec (key p) (map key pre)); [exact Hkeys|contradiction].
    + intros k v Hkv. rewrite records_with_key_snoc.
      destruct (map_set_In _ _ _ _ _ Hnd Hkv) as [[-> ->]|[Hne Hold]].
      * destruct (Hent _ _ Hin) as (Hkey & Hcop & Hty). simpl.
        destruct (key_eq_dec (key p) (key p)) as [_|]; [|congruence].
        split; [exact Hkey|]. split; [rewrite length_app, Hcop; simpl; lia|].
        rewrite map_app; cbn [map]; rewrite undup_snoc, <- Hty.
        destruct (includes (types ex) (type p)) eqn:Hinc; simpl.
        -- apply includes_In in Hinc. rewrite Hty, undup_In in Hinc.
           destruct (in_dec PlayerType_eq_dec (type p) _); [reflexivity|contradiction].
        -- destruct (in_dec PlayerType_eq_dec (type p) _) as [Hi|]; [|reflexivity].
           rewrite <- (undup_In PlayerType_eq_dec), <- Hty, <- includes_In in Hi. congruence.
      * destruct (key_eq_dec (key p) k) as [Heq|]; [congruence|].
        rewrite app_nil_r. now apply Hent.
  - apply map_get_None in Hget as Hn.
    assert (Hk : ~ In (key p) (map key pre)).
    { rewrite <- (undup_In key_eq_dec), <- Hkeys. exact Hn. }
    split.
    + rewrite map_set_keys, map_app; cbn [map]; rewrite undup_snoc, Hkeys.
      rewrite Hkeys in Hn.
      destruct (in_dec key_eq_dec (key p) (undup key_eq_dec (map key pre))); [contradiction|].
      destruct (in_dec key_eq_dec (key p) (map key pre)); [contradiction|reflexivity].
    + intros k v Hkv. rewrite records_with_key_snoc.
      destruct (map_set_In _ _ _ _ _ Hnd Hkv) as [[-> ->]|[Hne Hold]].
      * rewrite (records_with_key_nil _ _ Hk). simpl.
        destruct (key_eq_dec (key p) (key p)); [|congruence]. simpl.
        repeat split; reflexivity.
      * destruct (key_eq_dec (key p) k) as [Heq|]; [congruence|].
        rewrite app_nil_r. now apply Hent.
Qed.

Lemma agg_inv_fold ps : agg_inv ps (fold_left aggregate_step ps []).
Proof.
  induction ps as [|p ps IH] using rev_ind.
  - split; [reflexivity|]. intros k v [].
  - rewrite fold_left_app. simpl. now apply agg_inv_step.
Qed.

Lemma types_length_le_3 (l : list PlayerType) : NoDup l -> length l <= 3.
Proof.
  intros Hnd. change 3 with (length [Transfer; Storage; Duplicated]).
  apply NoDup_incl_length; [assumption|].
  intros [] _; simpl; tauto.
Qed.

Example aggregatedPlayers_run :
  map (fun e => (agg_key e, copies e, types e))
    (aggregatedPlayers [sample_player 7 85 Storage; sample_player 3 80 Transfer;
                        sample_player 7 85 Transfer; sample_player 7 86 Storage;
                        sample_player 7 85 Storage; sample_player 3 80 Duplicated]) =
  [((7, 85)%Z, 3, [Storage; Transfer]); ((3, 80)%Z, 2, [Transfer; Duplicated]);
   ((7, 86)%Z, 1, [Storage])].
Proof. reflexivity. Qed.

(** Claim C1. Aggregation yields exactly one entry per distinct
    (asset id, rating) key, in first-seen order of the keys; the entry's
    [copies] is the number of input records with its key, and its [types]
    lists the distinct categories of those records once each in order of
    first appearance, hence at most 3 of them. *)
Theorem aggregatedPlayers_spec (ps : list ProcessedPlayer) :
  map agg_key (aggregatedPlayers ps) = undup key_eq_dec (map key ps) /\
  NoDup (map agg_key (aggregatedPlayers ps)) /\
  (forall k, In k (map key ps) <-> In k (map agg_key (aggregatedPlayers ps))) /\
  (forall e, In e (aggregatedPlayers ps) ->
     copies e = length (records_with_key (agg_key e) ps) /\
     types e = undup PlayerType_eq_dec (map type (records_with_key (agg_key e) ps)) /\
     length (types e) <= 3).
Proof.
  destruct (agg_inv_fold ps) as [Hkeys Hent].
  unfold aggregatedPlayers.
  set (m := fold_left aggregate_step ps []) in *.
  assert (Hmap : map agg_key (map snd m) = map fst m).
  { rewrite map_map. apply map_ext_in. intros [k v] Hin. now apply Hent in Hin as [Hk _]. }
  rewrite Hmap, Hkeys.
  split; [reflexivity|]. split; [apply undup_NoDup|]. split.
  - intros k. now rewrite undup_In.
  - intros e Hin. apply in_map_iff in Hin as [[k v] [<- Hkv]]. simpl.
    destruct (Hent _ _ Hkv) as (Hk & Hcop & Hty). rewrite Hk.
    split; [exact Hcop|]. split; [exact Hty|].
    apply types_length_le_3. rewrite Hty. apply undup_NoDup.
Qed.

(* ----------------------------------------------------------------- *)
(** ** Filtering *)

Example split_slash_run :
  split_slash "ST / CF / LW" = ["ST"; "CF"; "LW"]%string /\
  split_slash "" = [""]%string /\ split_slash "CAM" = ["CAM"]%string.
Proof. repeat split; reflexivity. Qed.

Lemma str_includes_In (l : list string) (x : string) :
  str_includes l x = true <-> In x l.
Proof.
  unfold str_includes. rewrite existsb_exists. split.
  - intros [y [Hy Heq]]. apply String.eqb_eq in Heq. now subst.
  - intros H. exists x. split; [assumption|]. apply String.eqb_refl.
Qed.

Lemma if_false_else (c r : bool) : (if c then false else r) = negb c && r.
Proof. now destruct c. Qed.

Lemma nonempty_guard {X} (l : list X) (b : bool) :
  negb ((0 <? length l)%nat && negb b) = true <-> l = [] \/ b = true.
Proof. destruct l, b; simpl; intuition congruence. Qed.

Lemma passes_iff (f : FilterState) (e : AggregatedPlayer) :
  passes f e = true <-> entry_passes f e.
Proof.
  unfold passes, entry_passes. rewrite !if_false_else, andb_true_r.
  rewrite !andb_true_iff, !nonempty_guard.
  rewrite existsb_exists, !str_includes_In, existsb_exists.
  assert (Hr : negb ((rating (base e) <? fst (ratingRange f))%Z ||
                     (snd (ratingRange f) <? rating (base e))%Z) = true <->
               (fst (ratingRange f) <= rating (base e) <= snd (ratingRange f))%Z).
  { rewrite negb_true_iff, orb_false_iff, !Z.ltb_ge. lia. }
  assert (Hc : negb (multipleCopiesOnly f && (copies e <? 2)%nat) = true <->
               (multipleCopiesOnly f = true -> (copies e >= 2)%nat)).
  { destruct (multipleCopiesOnly f); simpl; [|intuition discriminate].
    rewrite negb_true_iff, Nat.ltb_ge. lia. }
  rewrite Hr, Hc.
  assert (Hp : (exists pos, In pos (positions f) /\
                  str_includes (split_slash (position (base e))) pos = true) <->
               (exists pos, In pos (split_slash (position (base e))) /\ In pos (positions f))).
  { split; intros [pos [H1 H2]]; exists pos; rewrite str_includes_In in *; tauto. }
  assert (Ht : (exists t, In t (types e) /\ includes (typeFilter f) t = true) <->
               (exists t, In t (types e) /\ In t (typeFilter f))).
  { split; intros [t [H1 H2]]; exists t; rewrite includes_In in *; tauto. }
  rewrite Hp, Ht. tauto.
Qed.

Lemma insert_by_perm {A} (after : A -> A -> bool) x l :
  Permutation (insert_by after x l) (x :: l).
Proof.
  induction l as [|y l IH]; simpl; [reflexivity|].
  destruct (after x y); [|reflexivity].
  rewrite IH. apply perm_swap.
Qed.

Lemma sort_by_perm {A} (after : A -> A -> bool) l :
  Permutation (sort_by after l) l.
Proof.
  induction l as [|x l IH]; simpl; [reflexivity|].
  rewrite insert_by_perm. now apply perm_skip.
Qed.

Lemma rating_insert_sorted x l :
  Sorted rating_desc l -> Sorted rating_desc (insert_by rating_after x l).
Proof.
  induction l as [|y l IH]; simpl; intros Hs.
  - repeat constructor.
  - unfold rating_after. destruct (0 <? rating (base y) - rating (base x))%Z eqn:Hxy.
    + apply Z.ltb_lt in Hxy. inversion Hs as [|? ? Hl Hhd]; subst.
      constructor; [now apply IH|].
      destruct l as [|z l]; simpl.
      * constructor. unfold rating_desc. lia.
      * destruct (0 <? rating (base z) - rating (base x))%Z eqn:Hxz;
          constructor; unfold rating_desc.
        -- now inversion Hhd.
        -- lia.
    + apply Z.ltb_ge in Hxy. constructor; [exact Hs|]. constructor. unfold rating_desc. lia.
Qed.

Lemma rating_sort_sorted l : Sorted rating_desc (sort_by rating_after l).
Proof.
  induction l as [|x l IH]; simpl; [constructor|]. now apply rating_insert_sorted.
Qed.

Lemma with_rating_insert r x l :
  with_rating r (insert_by rating_after x l) = with_rating r (x :: l).
Proof.
  induction l as [|y l IH]; [reflexivity|].
  cbn [insert_by].
  destruct (rating_after x y) eqn:Hxy; [|reflexivity].
  unfold rating_after in Hxy. apply Z.ltb_lt in Hxy.
  unfold with_rating in *. cbn [filter] in *. rewrite IH.
  destruct (rating (base x) =? r)%Z eqn:Hx, (rating (base y) =? r)%Z eqn:Hy; try reflexivity.
  apply Z.eqb_eq in Hx, Hy. lia.
Qed.

Lemma with_rating_sort r l :
  with_rating r (sort_by rating_after l) = with_rating r l.
Proof.
  induction l as [|x l IH]; [reflexivity|].
  cbn [sort_by]. rewrite with_rating_insert.
  unfold with_rating in *. cbn [filter]. now rewrite IH.
Qed.

(** Claim C3. The filter keeps exactly the entries that satisfy the
    conjunction of the criteria ([entry_passes]), each as often as in the
    input; the result is sorted by descending rating, and entries of equal
    rating keep their input order. With every list criterion empty, no
    multiple-copies flag and a rating range holding every entry, the result
    is the input itself re-sorted that way. [filteredPlayers] is a function
    of its arguments: the source filters into a fresh array and sorts that
    array, so the input array is left as it was. *)
Theorem filteredPlayers_spec (ps : list AggregatedPlayer) (f : FilterState) :
  (forall e, passes f e = true <-> entry_passes f e) /\
  (forall e, In e (filteredPlayers ps f) <-> In e ps /\ entry_passes f e) /\
  Permutation (filteredPlayers ps f) (filter (passes f) ps) /\
  Sorted rating_desc (filteredPlayers ps f) /\
  (forall r, with_rating r (filteredPlayers ps f) = with_rating r (filter (passes f) ps)) /\
  (positions f = [] -> nations f = [] -> leagues f = [] -> teams f = [] ->
   typeFilter f = [] -> multipleCopiesOnly f = false ->
   (forall e, In e ps ->
      (fst (ratingRange f) <= rating (base e) <= snd (ratingRange f))%Z) ->
   Permutation (filteredPlayers ps f) ps /\
   (forall r, with_rating r (filteredPlayers ps f) = with_rating r ps)).
Proof.
  unfold filteredPlayers.
  split; [apply passes_iff|]. split.
  { intros e. rewrite <- passes_iff, <- filter_In.
    split; apply Permutation_in; [|symmetry]; apply sort_by_perm. }
  split; [apply sort_by_perm|]. split; [apply rating_sort_sorted|].
  split; [intros r; apply with_rating_sort|].
  intros Hpos Hnat Hlea Htea Htyp Hmc Hrange.
  assert (Hall : filter (passes f) ps = ps).
  { apply forallb_filter_id, forallb_forall. intros e He. apply passes_iff.
    unfold entry_passes. rewrite Hpos, Hnat, Hlea, Htea, Htyp, Hmc.
    repeat split; auto; try apply Hrange; auto; discriminate. }
  rewrite Hall. split; [apply sort_by_perm|]. intros r. apply with_rating_sort.
Qed.

Lemma filteredPlayers_spec_witness :
  Permutation (filteredPlayers sample_aggregated open_filters) sample_aggregated /\
  filteredPlayers sample_aggregated open_filters =
  [nth 1 sample_aggregated (mkAggregatedPlayer (sample_player 0 0 Storage) 0 []);
   nth 0 sample_aggregated (mkAggregatedPlayer (sample_player 0 0 Storage) 0 []);
   nth 2 sample_aggregated (mkAggregatedPlayer (sample_player 0 0 Storage) 0 [])].
Proof.
  split; [|reflexivity].
  destruct (filteredPlayers_spec sample_aggregated open_filters) as (_ & _ & _ & _ & _ & H).
  apply H; try reflexivity.
  intros e He. simpl in He.
  destruct He as [<-|[<-|[<-|[]]]]; simpl; lia.
Defined.

(* ----------------------------------------------------------------- *)
(** ** Fetching with retries *)

Example fetchWithRetry_run :
  fetchWithRetry (fun i => if (i <? 3)%nat then Fail (ThrownError (mkError "boom"))
                           else Ok 42) "Storage" 3 =
  ([EFetch 1; ESleep 1000; EFetch 2; ESleep 2000; EFetch 3], inr 42) /\
  fetchWithRetry (fun _ => @Fail nat (ThrownValue "x")) "Storage" 0 =
  ([], inl (mkError "Failed to fetch Storage after 0 retries")).
Proof. split; reflexivity. Qed.

Lemma retry_loop_fetches {T} (req : nat -> Attempt T) name max i rem last :
  (length (filter is_fetch (fst (retry_loop req name max i rem last))) <= rem)%nat.
Proof.
  revert i last. induction rem as [|rem IH]; intros i last; simpl; [lia|].
  destruct (req i) as [v|t]; simpl; [lia|].
  specialize (IH (S i) (Some (toError t))).
  destruct (retry_loop req name max (S i) rem (Some (toError t))) as [tr r] eqn:E.
  simpl in *. destruct (i <? max)%nat; simpl; lia.
Qed.

Lemma retry_loop_success {T} (req : nat -> Attempt T) name max i rem last k v :
  (i <= k < i + rem)%nat -> i + rem = S max -> req k = Ok v ->
  (forall j, (i <= j < k)%nat -> failed (req j)) ->
  retry_loop req name max i rem last = (spaced_attempts i (S (k - i)), inr v).
Proof.
  revert i last. induction rem as [|rem IH]; intros i last Hk Hsum Hv Hbefore; [lia|].
  cbn [retry_loop].
  destruct (Nat.eq_dec k i) as [->|Hne].
  - rewrite Hv, Nat.sub_diag. reflexivity.
  - assert (Hi : failed (req i)) by (apply Hbefore; lia).
    destruct (req i) as [v'|t]; [contradiction|].
    rewrite (IH (S i) (Some (toError t))); [|lia|lia|exact Hv|intros j Hj; apply Hbefore; lia].
    replace (i <? max)%nat with true by (symmetry; apply Nat.ltb_lt; lia).
    replace (k - i)%nat with (S (k - S i)) by lia. reflexivity.
Qed.

Lemma retry_loop_all_fail {T} (req : nat -> Attempt T) name max i rem last :
  (1 <= rem)%nat -> i + rem = S max ->
  (forall j, (i <= j < i + rem)%nat -> failed (req j)) ->
  exists t, req (i + rem - 1)%nat = Fail t /\
            retry_loop req name max i rem last = (spaced_attempts i rem, inl (toError t)).
Proof.
  revert i last. induction rem as [|rem IH]; intros i last Hrem Hsum Hfail; [lia|].
  cbn [retry_loop].
  assert (Hi : failed (req i)) by (apply Hfail; lia).
  destruct (req i) as [v|t] eqn:Ereq; [contradiction|].
  destruct rem as [|rem'].
  - exists t. replace (i + 1 - 1)%nat with i by lia. split; [exact Ereq|].
    replace (i <? max)%nat with false by (symmetry; apply Nat.ltb_ge; lia).
    reflexivity.
  - destruct (IH (S i) (Some (toError t))) as [t' [Ht' Hrec]];
      [lia|lia|intros j Hj; apply Hfail; lia|].
    exists t'. split; [replace (i + S (S rem') - 1)%nat with (S i + S rem' - 1)%nat by lia; exact Ht'|].
    rewrite Hrec.
    replace (i <? max)%nat with true by (symmetry; apply Nat.ltb_lt; lia).
    reflexivity.
Qed.

(** Claim C7. [fetchWithRetry] issues at most [maxRetries] requests. When
    attempt [k] is the first one that does not throw, its value, whatever it
    is, is returned at once after [k] requests, attempt [i] being followed
    by a wait of [i * 1000] ms; when every attempt throws, it waits the same
    way between them and rejects with the error of the last attempt. *)
Theorem fetchWithRetry_spec {T} (req : nat -> Attempt T) (name : string) (maxRetries : nat) :
  (length (filter is_fetch (fst (fetchWithRetry req name maxRetries))) <= maxRetries)%nat /\
  (forall k v, (1 <= k <= maxRetries)%nat -> req k = Ok v ->
     (forall j, (1 <= j < k)%nat -> failed (req j)) ->
     fetchWithRetry req name maxRetries = (spaced_attempts 1 k, inr v)) /\
  ((1 <= maxRetries)%nat -> (forall j, (1 <= j <= maxRetries)%nat -> failed (req j)) ->
     exists t, req maxRetries = Fail t /\
       fetchWithRetry req name maxRetries = (spaced_attempts 1 maxRetries, inl (toError t))).
Proof.
  unfold fetchWithRetry. split; [apply retry_loop_fetches|]. split.
  - intros k v Hk Hv Hbefore.
    rewrite (retry_loop_success req name maxRetries 1 maxRetries None k v);
      [|lia|lia|exact Hv|exact Hbefore].
    replace (S (k - 1)) with k by lia. reflexivity.
  - intros Hm Hfail.
    destruct (retry_loop_all_fail req name maxRetries 1 maxRetries None) as [t [Ht Hr]];
      [lia|lia|intros j Hj; apply Hfail; lia|].
    exists t. split; [|exact Hr]. replace maxRetries with (1 + maxRetries - 1)%nat at 1 by lia.
    exact Ht.
Qed.

Lemma fetchWithRetry_spec_witness :
  fetchWithRetry flaky_request "Storage" 3 = (spaced_attempts 1 3, inr 42) /\
  (exists t, @always_down nat 3 = Fail t /\
     fetchWithRetry (@always_down nat) "Storage" 3 = (spaced_attempts 1 3, inl (toError t))).
Proof.
  destruct (fetchWithRetry_spec flaky_request "Storage" 3) as (_ & Hs & _).
  destruct (fetchWithRetry_spec (@always_down nat) "Storage" 3) as (_ & _ & Hf).
  split.
  - apply Hs; [lia|reflexivity|].
    intros j Hj. destruct j as [|[|[|j]]]; simpl; try lia; exact I.
  - apply Hf; [lia|]. intros j _. exact I.
Defined.

(* ----------------------------------------------------------------- *)
(** ** Normalisation: one failing source *)

Lemma fold_on_settle reqTp reqSt reqDu settled w :
  fold_left (on_settle reqTp reqSt reqDu) settled w =
  w ++ flat_map (fun s => match source_error reqTp reqSt reqDu s with
                          | Some err => [(failure_label s ++ message err)%string]
                          | None => []
                          end) settled.
Proof.
  revert w. induction settled as [|s settled IH]; intros w; simpl.
  - now rewrite app_nil_r.
  - rewrite IH. unfold on_settle. destruct (source_error reqTp reqSt reqDu s); simpl.
    + now rewrite <- app_assoc.
    + reflexivity.
Qed.

Lemma fetch3_all_fail {T} (req : nat -> Attempt T) name :
  (forall i, failed (req i)) -> exists e, snd (fetchWithRetry req name 3) = inl e.
Proof.
  intros Hf. unfold fetchWithRetry.
  destruct (retry_loop_all_fail req name 3 1 3 None) as [t [_ Hr]];
    [lia|lia|intros j _; apply Hf|].
  rewrite Hr. now exists (toError t).
Qed.

Lemma always_fails_error reqTp reqSt reqDu s :
  always_fails reqTp reqSt reqDu s -> exists e, source_error reqTp reqSt reqDu s = Some e.
Proof.
  destruct s; simpl; intros Hf; unfold tradePileResult, storageResult, duplicatedResult;
    [destruct (fetch3_all_fail reqTp "Trade pile" Hf) as [e He]
    |destruct (fetch3_all_fail reqSt "Storage" Hf) as [e He]
    |destruct (fetch3_all_fail reqDu "Duplicated items" Hf) as [e He]];
    exists e; [unfold fetchTradePile|unfold fetchStorage|unfold fetchDuplicated]; now rewrite He.
Qed.

Lemma items_records_length staticData t r :
  length (items_records staticData t r) =
  match itemData r with Some l => length l | None => 0 end.
Proof. unfold items_records. destruct (itemData r); [apply length_map|reflexivity]. Qed.

Lemma tradePile_records_length staticData r :
  length (tradePile_records staticData r) =
  match TradePile.auctionInfo r with Some l => length l | None => 0 end.
Proof. unfold tradePile_records. destruct (TradePile.auctionInfo r); [apply length_map|reflexivity]. Qed.

(** Claim C2. When exactly one of the three sources fails on every attempt
    and the other two resolve, [processPlayers] still returns a result,
    whatever the order in which the requests settle: its warnings are one
    message that starts with the failed source's label, and its records are
    those built from the two other sources' responses, as many as these
    responses hold items. *)
Theorem processPlayers_one_source_fails staticData reqTp reqSt reqDu settled s :
  Permutation settled all_sources ->
  always_fails reqTp reqSt reqDu s ->
  (forall s', s' <> s -> succeeds reqTp reqSt reqDu s') ->
  (exists msg, warnings (processPlayers staticData reqTp reqSt reqDu settled) =
               [(failure_label s ++ msg)%string]) /\
  players (processPlayers staticData reqTp reqSt reqDu settled) =
    flat_map (fun s' => if PlayerType_eq_dec s' s then []
                        else source_records staticData reqTp reqSt reqDu s') all_sources /\
  length (players (processPlayers staticData reqTp reqSt reqDu settled)) =
    list_sum (map (fun s' => if PlayerType_eq_dec s' s then 0
                             else source_item_count reqTp reqSt reqDu s') all_sources).
Proof.
  intros Hperm Hfail Hok.
  destruct (always_fails_error _ _ _ _ Hfail) as [e He].
  split.
  - exists (message e). unfold processPlayers. cbn [warnings].
    rewrite fold_on_settle. simpl.
    set (g := fun s0 => match source_error reqTp reqSt reqDu s0 with
                        | Some err => [(failure_label s0 ++ message err)%string]
                        | None => [] end).
    assert (Hall : flat_map g all_sources = [(failure_label s ++ message e)%string]).
    { destruct s; simpl; unfold g; rewrite He;
        repeat match goal with
        | |- context [source_error reqTp reqSt reqDu ?x] =>
            rewrite (Hok x) by discriminate
        end; reflexivity. }
    apply Permutation_length_1_inv. rewrite <- Hall.
    apply Permutation_flat_map. now symmetry.
  - pose proof (Hok Transfer) as H1. pose proof (Hok Storage) as H2.
    pose proof (Hok Duplicated) as H3.
    unfold succeeds, source_error in *.
    unfold processPlayers, source_records, source_item_count. cbn [players].
    destruct (tradePileResult reqTp) as [e1|r1];
      destruct (storageResult reqSt) as [e2|r2];
      destruct (duplicatedResult reqDu) as [e3|r3];
      destruct s; simpl in *;
      try discriminate;
      repeat match goal with
      | H : ?a <> ?a -> _ |- _ => clear H
      | H : ?a <> ?b -> _ |- _ => specialize (H ltac:(discriminate)); try discriminate H
      end;
      rewrite ?app_nil_r; split; try reflexivity;
      rewrite ?length_app, ?items_records_length, ?tradePile_records_length; simpl; lia.
Qed.

Lemma processPlayers_one_source_fails_witness :
  (exists msg, warnings (processPlayers sample_static always_down storage_ok duplicated_ok
                           [Storage; Duplicated; Transfer]) =
               [(failure_label Transfer ++ msg)%string]) /\
  players (processPlayers sample_static always_down storage_ok duplicated_ok
             [Storage; Duplicated; Transfer]) =
    flat_map (fun s' => if PlayerType_eq_dec s' Transfer then []
                        else source_records sample_static always_down storage_ok duplicated_ok s')
             all_sources /\
  length (players (processPlayers sample_static always_down storage_ok duplicated_ok
                     [Storage; Duplicated; Transfer])) =
    list_sum (map (fun s' => if PlayerType_eq_dec s' Transfer then 0
                             else source_item_count always_down storage_ok duplicated_ok s')
                  all_sources).
Proof.
  apply processPlayers_one_source_fails.
  - unfold all_sources. symmetry. apply (Permutation_cons_append [Storage; Duplicated] Transfer).
  - intros i. exact I.
  - intros s' Hs'. destruct s'; [congruence|reflexivity|reflexivity].
Defined.

Example processPlayers_run :
  warnings (processPlayers sample_static always_down storage_ok duplicated_ok
              [Storage; Duplicated; Transfer]) =
    ["Trade pile failed: API Error: 503 Service Unavailable"]%string /\
  map (fun p => (name p, position p, nation p, league p, team p, type p))
      (players (processPlayers sample_static always_down storage_ok duplicated_ok
                  [Storage; Duplicated; Transfer])) =
    [("Lionel Messi", "RW / CF", "Argentina", "LALIGA EA SPORTS", "FC Barcelona", Storage);
     ("Vini Jr.", "LW", "Argentina", "LALIGA EA SPORTS", "FC Barcelona", Storage);
     ("Lionel Messi", "RW / CF", "Argentina", "LALIGA EA SPORTS", "FC Barcelona", Duplicated)]%string.
Proof. split; reflexivity. Qed.

(* ----------------------------------------------------------------- *)
(** ** Normalisation: reference lookups and positions *)

(** Claim C8. Building a record never fails, whatever the ids: a nation,
    league or team id absent from its map gives the name "Unknown" and no
    image, an asset id absent from the catalog gives the name "Unknown";
    a catalogued player is named by its common name when it has a non-empty
    one, and otherwise by the given name, a space and the family name.
    [processPlayers] builds every record with [processItem]. *)
Theorem processItem_lookups staticData t item :
  let p := processItem staticData t item in
  (zmap_get (Static.nations staticData) (Item.nation item) = None ->
     nation p = "Unknown"%string /\ nationImg p = None) /\
  (zmap_get (Static.leagues staticData) (Item.leagueId item) = None ->
     league p = "Unknown"%string /\ leagueImg p = None) /\
  (zmap_get (Static.teams staticData) (Item.teamid item) = None ->
     team p = "Unknown"%string /\ teamImg p = None) /\
  (zmap_get (Static.players staticData) (Item.assetId item) = None ->
     name p = "Unknown"%string) /\
  (forall r c, zmap_get (Static.players staticData) (Item.assetId item) = Some r ->
     Raw.c r = Some c -> c <> EmptyString -> name p = c) /\
  (forall r, zmap_get (Static.players staticData) (Item.assetId item) = Some r ->
     Raw.c r = None \/ Raw.c r = Some EmptyString ->
     name p = (Raw.f r ++ " " ++ Raw.l r)%string).
Proof.
  cbn zeta. unfold processItem. cbn [nation nationImg league leagueImg team teamImg name].
  unfold getNationName, getNationImg, getLeagueName, getLeagueImg, getTeamName, getTeamImg,
    entity_name, entity_img, getPlayerName.
  repeat split; intros; repeat match goal with H : _ = _ |- _ => rewrite H end; try reflexivity.
  - unfold or_default. destruct (String.eqb c EmptyString) eqn:E; [|reflexivity].
    apply String.eqb_eq in E. contradiction.
  - destruct H0 as [-> | ->]; reflexivity.
Qed.

Lemma processItem_lookups_witness :
  nation (processItem sample_static Storage (Item.mkItemData 999 70 None 7 8 9)) = "Unknown"%string /\
  nationImg (processItem sample_static Storage (Item.mkItemData 999 70 None 7 8 9)) = None /\
  name (processItem sample_static Storage (Item.mkItemData 999 70 None 7 8 9)) = "Unknown"%string /\
  name (processItem sample_static Storage (sample_item 200 None)) = "Vini Jr."%string.
Proof.
  destruct (processItem_lookups sample_static Storage (Item.mkItemData 999 70 None 7 8 9))
    as (Hn & _ & _ & Hp & _ & _).
  destruct (processItem_lookups sample_static Storage (sample_item 200 None))
    as (_ & _ & _ & _ & Hc & _).
  destruct (Hn eq_refl) as [Hn1 Hn2].
  split; [exact Hn1|]. split; [exact Hn2|]. split; [exact (Hp eq_refl)|].
  apply (Hc (Raw.mkRawPlayerData 200 "Vinicius" "Junior" (Some "Vini Jr."%string)));
    [reflexivity|reflexivity|discriminate].
Defined.

(** Claim C9, as stated, fails: an item whose position list is empty gets
    the position "Unknown", not the empty join. *)
Lemma position_empty_list_counterexample :
  position (processItem sample_static Storage (sample_item 100 (Some []))) <>
  String.concat " / " [].
Proof. simpl. discriminate. Qed.

(** Claim C9, amended. The position is the codes joined with " / " when
    that join is non-empty; when the list is absent, or joins to the empty
    string (an empty list, say), the position is "Unknown". *)
Theorem processItem_position staticData t item :
  let p := processItem staticData t item in
  (forall ps, Item.possiblePositions item = Some ps ->
     String.concat " / " ps <> EmptyString -> position p = String.concat " / " ps) /\
  (forall ps, Item.possiblePositions item = Some ps ->
     String.concat " / " ps = EmptyString -> position p = "Unknown"%string) /\
  (Item.possiblePositions item = None -> position p = "Unknown"%string).
Proof.
  cbn zeta. unfold processItem, position_of. cbn [position].
  repeat split; intros; repeat match goal with H : Item.possiblePositions _ = _ |- _ => rewrite H end;
    try reflexivity; unfold or_default.
  - destruct (String.eqb _ EmptyString) eqn:E; [|reflexivity].
    apply String.eqb_eq in E. contradiction.
  - rewrite H0. reflexivity.
Qed.

Lemma processItem_position_witness :
  position (processItem sample_static Transfer (sample_item 100 (Some ["RW"; "CF"]%string))) =
    "RW / CF"%string /\
  position (processItem sample_static Transfer (sample_item 100 (Some []))) = "Unknown"%string /\
  position (processItem sample_static Transfer (sample_item 100 None)) = "Unknown"%string.
Proof.
  destruct (processItem_position sample_static Transfer (sample_item 100 (Some ["RW"; "CF"]%string)))
    as (H1 & _ & _).
  destruct (processItem_position sample_static Transfer (sample_item 100 (Some []))) as (_ & H2 & _).
  destruct (processItem_position sample_static Transfer (sample_item 100 None)) as (_ & _ & H3).
  split; [apply (H1 ["RW"; "CF"]%string); [reflexivity|discriminate]|].
  split; [apply (H2 []); reflexivity|].
  apply H3. reflexivity.
Defined.

(* ----------------------------------------------------------------- *)
(** ** SBC ranking *)

(** Claim C4. With no votes (or 0 likes and 0 dislikes) the score is 0;
    with 10 likes and no dislikes it lies strictly between 0 and 1 and is
    above the score of 5 likes and no dislikes; at 100% approval the score
    grows strictly with the number of likes from 1 to 1000. All in binary64
    arithmetic, as the browser computes it. *)
Theorem rankScore_values :
  score_of [] = 0%float /\
  score_of (sbc_votes 7 0 0) = 0%float /\
  (0 <? score_of (sbc_votes 7 10 0))%float = true /\
  (score_of (sbc_votes 7 10 0) <? 1)%float = true /\
  (score_of (sbc_votes 7 5 0) <? score_of (sbc_votes 7 10 0))%float = true /\
  forallb (fun n => score_of (sbc_votes 7 (float_of_nat n) 0) <?
                    score_of (sbc_votes 7 (float_of_nat (S n)) 0))%float
          (seq 1 999) = true.
Proof. vm_compute. repeat split; reflexivity. Qed.

Lemma skip_excluded (set : Sets.SBCSet) :
  (if Sets.repeatable set
   then (Sets.repeats set <=? Sets.timesCompleted set)%Z &&
        (Sets.challengesCount set - Sets.challengesCompletedCount set =? 0)%Z
   else (Sets.challengesCount set - Sets.challengesCompletedCount set =? 0)%Z) = excluded set.
Proof.
  unfold excluded. destruct (Sets.repeatable set); simpl; [now rewrite orb_false_r|reflexivity].
Qed.

Lemma remaining_sets_filter (allSets : list Sets.SBCSet) :
  remaining_sets allSets = map with_remaining (filter (fun s => negb (excluded s)) allSets).
Proof.
  induction allSets as [|set rest IH]; [reflexivity|].
  cbn [remaining_sets filter]. rewrite IH, skip_excluded.
  destruct (excluded set); reflexivity.
Qed.

(** Claim C5. The completion filter drops a set exactly when it is
    repeatable with [timesCompleted >= repeats] and no challenge left, or
    not repeatable with no challenge left; every kept set has its
    [challengesCount] replaced by the challenges left. When a call computes,
    the array it returns holds one entry per kept set. The set with
    [timesCompleted = 2 = repeats] and 5 of 5 challenges done is dropped;
    with [timesCompleted = 1] it is kept. *)
Theorem remaining_sets_spec (allSets : list Sets.SBCSet) :
  remaining_sets allSets = map with_remaining (filter (fun s => negb (excluded s)) allSets) /\
  (forall c env result,
     cache_hit c (now_start env) = None -> sets_response env = inr allSets ->
     snd (fetchAllSBCsWithDetails c env) = inr result ->
     Permutation result (map (toDetails (votes_response env)) (remaining_sets allSets))) /\
  remaining_sets [sbc_set 7 2] = [] /\
  remaining_sets [sbc_set 7 1] = [with_remaining (sbc_set 7 1)].
Proof.
  split; [apply remaining_sets_filter|].
  split; [|split; reflexivity].
  intros c env result Hmiss Hsets Hres.
  unfold fetchAllSBCsWithDetails in Hres. rewrite Hmiss, Hsets in Hres.
  destruct (remaining_sets allSets) as [|s0 rest] eqn:Hrem.
  - simpl in Hres. injection Hres as <-. constructor.
  - simpl in Hres. injection Hres as <-.
    exact (sort_by_perm rank_after (map (toDetails (votes_response env)) (s0 :: rest))).
Qed.

Lemma remaining_sets_spec_witness :
  Permutation [toDetails [] (with_remaining (sbc_set 7 1))]
              (map (toDetails []) (remaining_sets [sbc_set 7 1; sbc_set 8 2])).
Proof.
  destruct (remaining_sets_spec [sbc_set 7 1; sbc_set 8 2]) as (_ & H & _).
  apply (H None (env_at 0 (inr [sbc_set 7 1; sbc_set 8 2])));
    [reflexivity|reflexivity|reflexivity].
Defined.

Lemma cache_hit_None_later c t1 t2 :
  cache_hit c t1 = None -> (t1 <= t2)%Z -> cache_hit c t2 = None.
Proof.
  destruct c as [cc|]; simpl; [|reflexivity].
  destruct (t1 - timestamp cc <? SBC_CACHE_DURATION)%Z eqn:E1; [discriminate|].
  intros _ Ht. apply Z.ltb_ge in E1.
  destruct (t2 - timestamp cc <? SBC_CACHE_DURATION)%Z eqn:E2; [|reflexivity].
  apply Z.ltb_lt in E2. lia.
Qed.

(** Claim C10. A call that computes and finds no set left after the
    completion filter returns the empty array and leaves the cache as it
    was: no entry is stored, so every later call (the clock not going back)
    requests the sets again. *)
Theorem sbc_empty_not_cached c env allSets :
  cache_hit c (now_start env) = None ->
  sets_response env = inr allSets ->
  remaining_sets allSets = [] ->
  fetchAllSBCsWithDetails c env = (c, [FetchSets], inr []) /\
  (forall env2, (now_start env <= now_start env2)%Z ->
     hd_error (snd (fst (fetchAllSBCsWithDetails c env2))) = Some FetchSets).
Proof.
  intros Hmiss Hsets Hrem.
  split.
  - unfold fetchAllSBCsWithDetails. now rewrite Hmiss, Hsets, Hrem.
  - intros env2 Hle. unfold fetchAllSBCsWithDetails.
    rewrite (cache_hit_None_later c (now_start env) (now_start env2) Hmiss Hle).
    destruct (sets_response env2) as [e|sets2]; [reflexivity|].
    destruct (remaining_sets sets2); reflexivity.
Qed.

Lemma sbc_empty_not_cached_witness :
  fetchAllSBCsWithDetails None (env_at 0 (inr [sbc_set 7 2])) = (None, [FetchSets], inr []) /\
  hd_error (snd (fst (fetchAllSBCsWithDetails None (env_at 60000 (inr [sbc_set 7 2]))))) =
    Some FetchSets.
Proof.
  destruct (sbc_empty_not_cached None (env_at 0 (inr [sbc_set 7 2])) [sbc_set 7 2])
    as [H1 H2]; [reflexivity|reflexivity|reflexivity|].
  split; [exact H1|]. apply H2. simpl. lia.
Defined.

(** Claim C6, as stated, fails: a first computation whose sets are all
    finished returns [[]] without storing it, so a second call one minute
    later, with no invalidation, requests the sets again. *)
Lemma sbc_cache_empty_counterexample :
  fetchAllSBCsWithDetails None (env_at 0 (inr [sbc_set 7 2])) = (None, [FetchSets], inr []) /\
  snd (fst (fetchAllSBCsWithDetails
              (fst (fst (fetchAllSBCsWithDetails None (env_at 0 (inr [sbc_set 7 2])))))
              (env_at 60000 (inr [sbc_set 7 2])))) <> [].
Proof. split; [reflexivity|]. simpl. discriminate. Qed.

(** Claim C6, amended. A computation that finds at least one set left
    stores its result with the clock read at store time before returning
    it. A call that starts less than 5 minutes after the stored timestamp
    issues no request and returns the stored array unchanged; so after such
    a computation, with no invalidation in between, a second call within 5
    minutes of it is served from the cache. A failed sets request stores
    nothing, and a computation with no set left returns the empty array
    and stores nothing either. *)
Theorem sbc_cache_spec :
  (forall c env allSets,
     cache_hit c (now_start env) = None -> sets_response env = inr allSets ->
     remaining_sets allSets <> [] ->
     exists result, fetchAllSBCsWithDetails c env =
       (Some (mkSBCCache result (now_store env)), [FetchSets; FetchVotes], inr result)) /\
  (forall cc env, (now_start env - timestamp cc < SBC_CACHE_DURATION)%Z ->
     fetchAllSBCsWithDetails (Some cc) env = (Some cc, [], inr (data cc))) /\
  (forall c env1 env2 allSets,
     cache_hit c (now_start env1) = None -> sets_response env1 = inr allSets ->
     remaining_sets allSets <> [] ->
     (now_start env2 - now_store env1 < SBC_CACHE_DURATION)%Z ->
     let '(c1, _, r1) := fetchAllSBCsWithDetails c env1 in
     fetchAllSBCsWithDetails c1 env2 = (c1, [], r1)) /\
  (forall c env e, cache_hit c (now_start env) = None -> sets_response env = inl e ->
     fetchAllSBCsWithDetails c env = (c, [FetchSets], inl e)) /\
  (forall c env allSets,
     cache_hit c (now_start env) = None -> sets_response env = inr allSets ->
     remaining_sets allSets = [] ->
     fetchAllSBCsWithDetails c env = (c, [FetchSets], inr [])).
Proof.
  assert (Hstore : forall c env allSets,
     cache_hit c (now_start env) = None -> sets_response env = inr allSets ->
     remaining_sets allSets <> [] ->
     exists result, fetchAllSBCsWithDetails c env =
       (Some (mkSBCCache result (now_store env)), [FetchSets; FetchVotes], inr result)).
  { intros c env allSets Hmiss Hsets Hne. unfold fetchAllSBCsWithDetails.
    rewrite Hmiss, Hsets. destruct (remaining_sets allSets) as [|s0 rest]; [congruence|].
    eexists. reflexivity. }
  assert (Hhit : forall cc env, (now_start env - timestamp cc < SBC_CACHE_DURATION)%Z ->
     fetchAllSBCsWithDetails (Some cc) env = (Some cc, [], inr (data cc))).
  { intros cc env Ht. unfold fetchAllSBCsWithDetails, cache_hit.
    apply Z.ltb_lt in Ht. now rewrite Ht. }
  split; [exact Hstore|]. split; [exact Hhit|]. split.
  - intros c env1 env2 allSets Hmiss Hsets Hne Ht.
    destruct (Hstore c env1 allSets Hmiss Hsets Hne) as [result ->].
    now apply Hhit.
  - split.
    + intros c env e Hmiss Hsets. unfold fetchAllSBCsWithDetails. now rewrite Hmiss, Hsets.
    + intros c env allSets Hmiss Hsets Hrem. unfold fetchAllSBCsWithDetails.
      now rewrite Hmiss, Hsets, Hrem.
Qed.

Lemma sbc_cache_spec_witness :
  fetchAllSBCsWithDetails
    (fst (fst (fetchAllSBCsWithDetails None (env_at 0 (inr [sbc_set 7 1])))))
    (env_at 60000 (inr [sbc_set 7 1])) =
  (fst (fst (fetchAllSBCsWithDetails None (env_at 0 (inr [sbc_set 7 1])))), [],
   snd (fetchAllSBCsWithDetails None (env_at 0 (inr [sbc_set 7 1])))).
Proof.
  destruct sbc_cache_spec as (_ & _ & H & _ & _).
  exact (H None (env_at 0 (inr [sbc_set 7 1])) (env_at 60000 (inr [sbc_set 7 1])) [sbc_set 7 1]
           eq_refl eq_refl ltac:(discriminate) ltac:(reflexivity)).
Defined.

(* ================================================================= *)
(** ** Static data *)

Lemma zmap_get_set {V} (m : list (Z * V)) k v k' :
  zmap_get (zmap_set m k v) k' = if Z.eqb k k' then Some v else zmap_get m k'.
Proof.
  induction m as [|[k0 v0] m IH]; simpl.
  - destruct (Z.eqb k k'); reflexivity.
  - destruct (Z.eqb k0 k) eqn:E0.
    + apply Z.eqb_eq in E0; subst k0. simpl. destruct (Z.eqb k k'); reflexivity.
    + simpl. destruct (Z.eqb k0 k') eqn:E1; [|exact IH].
      apply Z.eqb_eq in E1; subst k0. rewrite Z.eqb_sym in E0. rewrite E0. reflexivity.
Qed.

(** A sequence of [map.set] calls: the last write to a key wins. *)
Lemma zmap_get_fold {A V} (kf : A -> Z) (vf : A -> V) (l : list A) m k :
  zmap_get (fold_left (fun m a => zmap_set m (kf a) (vf a)) l m) k =
  match find (fun a => Z.eqb (kf a) k) (rev l) with
  | Some a => Some (vf a)
  | None => zmap_get m k
  end.
Proof.
  revert m. induction l as [|a l IH] using rev_ind; intros m; [reflexivity|].
  rewrite fold_left_app, rev_app_distr. cbn [fold_left rev app find].
  rewrite zmap_get_set. destruct (Z.eqb (kf a) k); [reflexivity|]. apply IH.
Qed.

Lemma fold_left_ext_eq {A B} (f g : A -> B -> A) (l : list B) (a : A) :
  (forall x y, f x y = g x y) -> fold_left f l a = fold_left g l a.
Proof.
  intros Hfg. revert a. induction l as [|b l IH]; intros a; simpl; [reflexivity|].
  rewrite Hfg. apply IH.
Qed.

Lemma fold_left_flat_map {A B C} (f : C -> B -> C) (g : A -> list B) (l : list A) (c : C) :
  fold_left f (flat_map g l) c = fold_left (fun c a => fold_left f (g a) c) l c.
Proof.
  revert c. induction l as [|a l IH]; intros c; simpl; [reflexivity|].
  rewrite fold_left_app. apply IH.
Qed.

Lemma teams_fold (clubs : list Club.FutGGClub) :
  fold_left club_step clubs [] =
  fold_left (fun m kv => zmap_set m (fst kv) (snd kv)) (flat_map club_entries clubs) [].
Proof.
  rewrite fold_left_flat_map. apply fold_left_ext_eq. intros teams club.
  unfold club_step, club_entries.
  destruct (Club.siblingClubEaId club) as [s|]; [destruct (s =? 0)%Z|]; reflexivity.
Qed.

Lemma find_rev_In {A} (p : A -> bool) (l : list A) a :
  find p (rev l) = Some a -> In a l /\ p a = true.
Proof.
  intros H. destruct (find_some p (rev l) H) as [Hin Hp]. split; [|exact Hp].
  apply in_rev. exact Hin.
Qed.

Lemma find_rev_None {A} (p : A -> bool) (l : list A) a :
  In a l -> p a = true -> find p (rev l) <> None.
Proof.
  intros Hin Hp Hn. apply in_rev in Hin.
  pose proof (find_none p (rev l) Hn a Hin) as H. congruence.
Qed.

Lemma teams_get (data : FutGG.FutGGData) k :
  zmap_get (FutGG.teams (fetchFutGGData data)) k =
  match find (fun kv => Z.eqb (fst kv) k) (rev (flat_map club_entries (FutGG.clubs data))) with
  | Some kv => Some (snd kv)
  | None => None
  end.
Proof.
  simpl. rewrite teams_fold.
  exact (zmap_get_fold fst snd (flat_map club_entries (FutGG.clubs data)) [] k).
Qed.

(** X1 *)
(** Every entry of the teams map built by [fetchFutGGData] has the EA
    club image URL of its own key as image, and the name of a club of the
    response that lists this key as its id or as its (truthy) sibling id. *)
Theorem fetchFutGGData_team_entry (data : FutGG.FutGGData) (k : Z) (e : Entity.EntityInfo) :
  zmap_get (FutGG.teams (fetchFutGGData data)) k = Some e ->
  Entity.imgUrl e = Some (getClubImageUrl k) /\
  exists club, In club (FutGG.clubs data) /\
    (Club.eaId club = k \/ (Club.siblingClubEaId club = Some k /\ k <> 0%Z)) /\
    Entity.name e = Club.name club.
Proof.
  rewrite teams_get.
  destruct (find _ _) as [[k' e']|] eqn:Hf; [|discriminate].
  intros Heq. injection Heq as <-.
  destruct (find_rev_In _ _ _ Hf) as [Hin Hk]. simpl in Hk. apply Z.eqb_eq in Hk. subst k'.
  apply in_flat_map in Hin. destruct Hin as [club [Hclub Hin]].
  unfold club_entries in Hin. destruct Hin as [Heq|Hin].
  - injection Heq as <- <-. simpl. split; [reflexivity|].
    exists club. split; [exact Hclub|]. split; [left; reflexivity|reflexivity].
  - destruct (Club.siblingClubEaId club) as [s|] eqn:Hs; [|contradiction].
    destruct (s =? 0)%Z eqn:Hs0; [contradiction|].
    destruct Hin as [Heq|[]]. injection Heq as <- <-. simpl. split; [reflexivity|].
    exists club. split; [exact Hclub|]. split; [|reflexivity].
    right. split; [exact Hs|]. apply Z.eqb_neq. exact Hs0.
Qed.

(** X2 *)
(** Every club of the fut.gg response is in the teams map under its own
    id, and under its sibling id when that id is present and not 0. *)
Theorem fetchFutGGData_club_keys (data : FutGG.FutGGData) (club : Club.FutGGClub) :
  In club (FutGG.clubs data) ->
  zmap_get (FutGG.teams (fetchFutGGData data)) (Club.eaId club) <> None /\
  (forall s, Club.siblingClubEaId club = Some s -> s <> 0%Z ->
     zmap_get (FutGG.teams (fetchFutGGData data)) s <> None).
Proof.
  intros Hclub. split.
  - rewrite teams_get. intros Hn.
    destruct (find _ _) eqn:Hf; [discriminate|].
    refine (find_rev_None _ _ (Club.eaId club, _) _ _ Hf).
    + apply in_flat_map. exists club. split; [exact Hclub|]. left. reflexivity.
    + apply Z.eqb_refl.
  - intros s Hs Hs0. rewrite teams_get. intros Hn.
    destruct (find _ _) eqn:Hf; [discriminate|].
    refine (find_rev_None _ _ (s, Entity.mkEntityInfo (Club.name club) (Some (getClubImageUrl s))) _ _ Hf).
    + apply in_flat_map. exists club. split; [exact Hclub|].
      unfold club_entries. rewrite Hs. apply Z.eqb_neq in Hs0. rewrite Hs0. right. left. reflexivity.
    + apply Z.eqb_refl.
Qed.

(** X3 *)
(** The nations and leagues maps of [fetchFutGGData]: a key maps to the
    name of the last nation (league) of the response with that id, and to
    the EA flag (league logo) URL of the key; an id no entry has is absent. *)
Theorem fetchFutGGData_nations_leagues (data : FutGG.FutGGData) (k : Z) :
  zmap_get (FutGG.nations_map (fetchFutGGData data)) k =
    option_map (fun n => Entity.mkEntityInfo (Nation.name n) (Some (getNationImageUrl k)))
      (find (fun n => Z.eqb (Nation.eaId n) k) (rev (FutGG.nations data))) /\
  zmap_get (FutGG.leagues_map (fetchFutGGData data)) k =
    option_map (fun l => Entity.mkEntityInfo (League.name l) (Some (getLeagueImageUrl k)))
      (find (fun l => Z.eqb (League.eaId l) k) (rev (FutGG.leagues data))).
Proof.
  simpl. unfold nation_step, league_step. split.
  - rewrite (zmap_get_fold Nation.eaId
              (fun n => Entity.mkEntityInfo (Nation.name n) (Some (getNationImageUrl (Nation.eaId n))))).
    destruct (find _ _) as [n|] eqn:Hf; [|reflexivity].
    destruct (find_rev_In _ _ _ Hf) as [_ Hk]. apply Z.eqb_eq in Hk. subst k. reflexivity.
  - rewrite (zmap_get_fold League.eaId
              (fun l => Entity.mkEntityInfo (League.name l) (Some (getLeagueImageUrl (League.eaId l))))).
    destruct (find _ _) as [l|] eqn:Hf; [|reflexivity].
    destruct (find_rev_In _ _ _ Hf) as [_ Hk]. apply Z.eqb_eq in Hk. subst k. reflexivity.
Qed.

(** X4 *)
(** The catalog map of [fetchStaticData]: an id maps to the last entry
    with that id in [LegendsPlayers] followed by [Players] (a missing
    array counting as empty), so a [Players] entry overrides a legend with
    the same id. *)
Theorem playersMap_last (r : PlayersJsonResponse) (k : Z) :
  zmap_get (playersMap r) k =
  find (fun p => Z.eqb (Raw.id p) k) (rev (or_nil (LegendsPlayers r) ++ or_nil (Players r))).
Proof.
  unfold playersMap, allPlayers.
  rewrite (zmap_get_fold Raw.id (fun p => p)).
  destruct (find _ _); reflexivity.
Qed.

Lemma run_static_settled st p ops :
  static_settled st p -> forallb (fun op => negb (is_clear op)) ops = true ->
  run_static st ops = (st, O, repeat p (length ops)).
Proof.
  intros [Hp Hc]. induction ops as [|op ops IH]; intros Hops; [reflexivity|].
  simpl in Hops. apply andb_prop in Hops. destruct Hops as [Hop Hops].
  destruct op as [load|]; [|discriminate]. simpl.
  unfold fetchStaticData. rewrite Hp.
  destruct Hc as [Hc|[d [Hc ->]]]; rewrite Hc; rewrite (IH Hops); reflexivity.
Qed.

Lemma run_static_loads st ops :
  (snd (fst (run_static st ops)) <=
   (match staticDataPromise st with None => 1 | Some _ => 0 end) +
   length (filter is_clear ops))%nat.
Proof.
  revert st. induction ops as [|op ops IH]; intros st; simpl; [lia|].
  destruct op as [load|]; simpl.
  - unfold fetchStaticData.
    destruct (cachedData st) as [d|].
    + specialize (IH st). destruct (run_static st ops) as [[st2 n] rs]. simpl in *. lia.
    + destruct (staticDataPromise st) as [p|] eqn:Hp.
      * specialize (IH st). rewrite Hp in IH.
        destruct (run_static st ops) as [[st2 n] rs]. simpl in *. lia.
      * match goal with |- context [run_static ?s1 ops] => specialize (IH s1) end.
        simpl in IH. destruct (run_static _ ops) as [[st2 n] rs]. simpl in *. lia.
  - specialize (IH (clearStatic st)). simpl in IH.
    destruct (staticDataPromise st); lia.
Qed.

(** X5 *)
(** [fetchStaticData] issues its requests at most once per cache clear:
    over any sequence of calls and [clearCache()] calls from the initial
    state, the number of calls that fetch is at most one more than the
    number of clears. *)
Theorem fetchStaticData_single_load (ops : list StaticOp) :
  (snd (fst (run_static static_initial ops)) <= 1 + length (filter is_clear ops))%nat.
Proof. exact (run_static_loads static_initial ops). Qed.

(** X6 *)
(** The first call of [fetchStaticData] fixes what every later call
    returns until [clearCache()]: later calls issue no request and return
    the same data, or the same rejection when the first load failed (a
    failed load is never retried). *)
Theorem fetchStaticData_first_outcome (load : StaticLoad) (ops : list StaticOp) :
  forallb (fun op => negb (is_clear op)) ops = true ->
  let outcome := match load with inl e => inl e | inr (pr, fr) => inr (build_cached pr fr) end in
  snd (fst (run_static static_initial (CallStatic load :: ops))) = 1%nat /\
  snd (run_static static_initial (CallStatic load :: ops)) = repeat outcome (S (length ops)).
Proof.
  intros Hops outcome. cbn [run_static]. unfold fetchStaticData. simpl.
  fold outcome.
  rewrite (run_static_settled _ outcome ops); [simpl; split; reflexivity| |exact Hops].
  split; [reflexivity|]. unfold outcome.
  destruct load as [e|[pr fr]]; [left; reflexivity|right; eexists; split; reflexivity].
Qed.

Lemma fetchStaticData_first_outcome_witness :
  forallb (fun op => negb (is_clear op)) [CallStatic (inr (sample_catalog, sample_futgg))] = true /\
  snd (fst (run_static static_initial
              [CallStatic (inl (mkError "API Error: 503 Service Unavailable"));
               CallStatic (inr (sample_catalog, sample_futgg))])) = 1%nat /\
  snd (run_static static_initial
         [CallStatic (inl (mkError "API Error: 503 Service Unavailable"));
          CallStatic (inr (sample_catalog, sample_futgg))]) =
  repeat (inl (mkError "API Error: 503 Service Unavailable")) 2.
Proof.
  split; [reflexivity|].
  exact (fetchStaticData_first_outcome (inl (mkError "API Error: 503 Service Unavailable"))
           [CallStatic (inr (sample_catalog, sample_futgg))] eq_refl).
Defined.

Lemma fetchFutGGData_team_entry_witness :
  let e := Entity.mkEntityInfo "Paris SG" (Some (getClubImageUrl 111)) in
  zmap_get (FutGG.teams (fetchFutGGData sample_futgg)) 111 = Some e /\
  (Entity.imgUrl e = Some (getClubImageUrl 111) /\
   exists club, In club (FutGG.clubs sample_futgg) /\
     (Club.eaId club = 111%Z \/ (Club.siblingClubEaId club = Some 111%Z /\ 111%Z <> 0%Z)) /\
     Entity.name e = Club.name club).
Proof.
  intros e. split; [vm_compute; reflexivity|].
  apply (fetchFutGGData_team_entry sample_futgg 111 e). vm_compute. reflexivity.
Defined.

Lemma fetchFutGGData_club_keys_witness :
  let club := Club.mkFutGGClub 73 "Paris SG" (Some 111%Z) None in
  In club (FutGG.clubs sample_futgg) /\
  (zmap_get (FutGG.teams (fetchFutGGData sample_futgg)) (Club.eaId club) <> None /\
   (forall s, Club.siblingClubEaId club = Some s -> s <> 0%Z ->
      zmap_get (FutGG.teams (fetchFutGGData sample_futgg)) s <> None)).
Proof.
  intros club. split; [simpl; right; left; reflexivity|].
  apply (fetchFutGGData_club_keys sample_futgg club). simpl. right. left. reflexivity.
Defined.

(* ================================================================= *)
(** ** corsRequest and processPlayers *)

Lemma retry_http_error {T} (resp : nat -> FetchResponse T) status text name maxRetries :
  (1 <= maxRetries)%nat ->
  (forall i, (1 <= i <= maxRetries)%nat -> exists b, resp i = HttpResponse false (status i) (text i) b) ->
  snd (fetchWithRetry (fun i => corsRequest (resp i)) name maxRetries) =
  inl (mkError ("API Error: " ++ string_of_nat (status maxRetries) ++ " " ++ text maxRetries)).
Proof.
  intros Hm Hresp. unfold fetchWithRetry.
  destruct (retry_loop_all_fail (fun i => corsRequest (resp i)) name maxRetries 1 maxRetries None)
    as [t [Ht Hr]]; [exact Hm|lia| |].
  - intros j Hj. destruct (Hresp j ltac:(lia)) as [b Hb]. simpl. rewrite Hb. exact I.
  - rewrite Hr. simpl. replace (1 + maxRetries - 1)%nat with maxRetries in Ht by lia.
    destruct (Hresp maxRetries ltac:(lia)) as [b Hb]. rewrite Hb in Ht. simpl in Ht.
    injection Ht as <-. reflexivity.
Qed.

(** X7 *)
(** When every attempt of [fetchWithRetry] gets a non-ok HTTP response,
    the rejection it ends with is the [corsRequest] error of the last
    attempt: ["API Error: "], that response's status, a space, and its
    status text. *)
Theorem fetchWithRetry_http_error {T} (resp : nat -> FetchResponse T) (status : nat -> nat)
    (text : nat -> string) (name : string) (maxRetries : nat) :
  (1 <= maxRetries)%nat ->
  (forall i, (1 <= i <= maxRetries)%nat -> exists b, resp i = HttpResponse false (status i) (text i) b) ->
  snd (fetchWithRetry (fun i => corsRequest (resp i)) name maxRetries) =
  inl (mkError ("API Error: " ++ string_of_nat (status maxRetries) ++ " " ++ text maxRetries)).
Proof. apply retry_http_error. Qed.

Lemma fetchWithRetry_http_error_witness :
  (1 <= 3)%nat /\
  (forall i, (1 <= i <= 3)%nat ->
     exists b, gateway_then_unavailable i = HttpResponse false (gateway_status i) (gateway_text i) b) /\
  snd (fetchWithRetry (fun i => corsRequest (gateway_then_unavailable i)) "Storage" 3) =
  inl (mkError ("API Error: " ++ string_of_nat (gateway_status 3) ++ " " ++ gateway_text 3)).
Proof.
  assert (H : forall i, (1 <= i <= 3)%nat ->
     exists b, gateway_then_unavailable i = HttpResponse false (gateway_status i) (gateway_text i) b).
  { intros i _. unfold gateway_then_unavailable, gateway_status, gateway_text.
    destruct (i <? 3)%nat; eexists; reflexivity. }
  split; [lia|]. split; [exact H|].
  exact (fetchWithRetry_http_error gateway_then_unavailable gateway_status gateway_text
           "Storage" 3 ltac:(lia) H).
Defined.

(** X8 *)
(** Whatever the order in which the three sources of [processPlayers]
    settle, its warnings hold exactly one message per rejected source, the
    source's label followed by the rejection's message; there is no
    warning exactly when all three sources resolved. *)
Theorem processPlayers_warnings staticData reqTp reqSt reqDu settled :
  Permutation settled all_sources ->
  Permutation (warnings (processPlayers staticData reqTp reqSt reqDu settled))
    (flat_map (fun s => match source_error reqTp reqSt reqDu s with
                        | Some err => [(failure_label s ++ message err)%string]
                        | None => []
                        end) all_sources) /\
  (warnings (processPlayers staticData reqTp reqSt reqDu settled) = [] <->
   forall s, source_error reqTp reqSt reqDu s = None).
Proof.
  intros Hperm.
  assert (HP : Permutation (warnings (processPlayers staticData reqTp reqSt reqDu settled))
    (flat_map (fun s => match source_error reqTp reqSt reqDu s with
                        | Some err => [(failure_label s ++ message err)%string]
                        | None => []
                        end) all_sources)).
  { unfold processPlayers. cbn [warnings]. rewrite fold_on_settle. cbn [app].
    apply Permutation_flat_map. exact Hperm. }
  split; [exact HP|]. split.
  - intros Hnil s. rewrite Hnil in HP. apply Permutation_nil in HP.
    unfold all_sources in HP. cbn [flat_map] in HP.
    destruct (source_error reqTp reqSt reqDu Transfer) eqn:E1; [simpl in HP; discriminate|].
    destruct (source_error reqTp reqSt reqDu Storage) eqn:E2; [simpl in HP; discriminate|].
    destruct (source_error reqTp reqSt reqDu Duplicated) eqn:E3; [simpl in HP; discriminate|].
    destruct s; assumption.
  - intros Hnone. apply Permutation_nil. symmetry.
    replace (flat_map _ all_sources) with (@nil string) in HP; [exact HP|].
    unfold all_sources. cbn [flat_map]. rewrite !Hnone. reflexivity.
Qed.

Lemma processPlayers_warnings_witness :
  Permutation [Storage; Duplicated; Transfer] all_sources /\
  (Permutation (warnings (processPlayers sample_static always_down
                            (fun i => corsRequest (gateway_then_unavailable i)) duplicated_ok
                            [Storage; Duplicated; Transfer]))
     (flat_map (fun s => match source_error always_down
                                 (fun i => corsRequest (gateway_then_unavailable i)) duplicated_ok s with
                         | Some err => [(failure_label s ++ message err)%string]
                         | None => []
                         end) all_sources) /\
   (warnings (processPlayers sample_static always_down
                (fun i => corsRequest (gateway_then_unavailable i)) duplicated_ok
                [Storage; Duplicated; Transfer]) = [] <->
    forall s, source_error always_down (fun i => corsRequest (gateway_then_unavailable i))
                duplicated_ok s = None)).
Proof.
  assert (H : Permutation [Storage; Duplicated; Transfer] all_sources).
  { unfold all_sources. symmetry. apply (Permutation_cons_append [Storage; Duplicated] Transfer). }
  split; [exact H|]. apply processPlayers_warnings. exact H.
Defined.

Lemma filter_tag staticData t' t l :
  filter (fun p => PlayerType_eqb (type p) t) (map (processItem staticData t') l) =
  if PlayerType_eqb t' t then map (processItem staticData t') l else [].
Proof.
  induction l as [|x l IH]; simpl; [destruct (PlayerType_eqb t' t); reflexivity|].
  rewrite IH. destruct (PlayerType_eqb t' t); reflexivity.
Qed.

Lemma filter_items_records staticData t' t r :
  filter (fun p => PlayerType_eqb (type p) t) (items_records staticData t' r) =
  if PlayerType_eqb t' t then items_records staticData t' r else [].
Proof.
  unfold items_records. destruct (itemData r); [apply filter_tag|].
  destruct (PlayerType_eqb t' t); reflexivity.
Qed.

Lemma filter_tradePile_records staticData t r :
  filter (fun p => PlayerType_eqb (type p) t) (tradePile_records staticData r) =
  if PlayerType_eqb Transfer t then tradePile_records staticData r else [].
Proof.
  unfold tradePile_records. destruct (TradePile.auctionInfo r) as [l|].
  - rewrite <- (map_map TradePile.itemData (processItem staticData Transfer)).
    rewrite filter_tag. reflexivity.
  - destruct (PlayerType_eqb Transfer t); reflexivity.
Qed.

(** X9 *)
(** The [type] tag of a [processPlayers] record names the source it came
    from: the records tagged [t] are exactly those built from source [t]'s
    own response, in that response's order (none when [t] rejected). *)
Theorem processPlayers_type_tags staticData reqTp reqSt reqDu settled (t : PlayerType) :
  filter (fun p => PlayerType_eqb (type p) t)
    (players (processPlayers staticData reqTp reqSt reqDu settled)) =
  source_records staticData reqTp reqSt reqDu t.
Proof.
  unfold processPlayers, source_records. cbn [players].
  rewrite !filter_app, filter_tradePile_records, !filter_items_records.
  destruct (tradePileResult reqTp) as [e1|r1];
    destruct (storageResult reqSt) as [e2|r2];
    destruct (duplicatedResult reqDu) as [e3|r3];
    destruct t; cbn; rewrite ?app_nil_r; reflexivity.
Qed.

(** X10 *)
(** When every attempt of the storage request gets a non-ok HTTP response,
    the warnings of [processPlayers] include
    ["Storage failed after 3 retries: API Error: <status> <statusText>"]
    for the third response. *)
Theorem processPlayers_storage_http_warning staticData reqTp
    (respSt : nat -> FetchResponse ItemsResponse) reqDu settled
    (status : nat -> nat) (text : nat -> string) :
  In Storage settled ->
  (forall i, (1 <= i <= 3)%nat -> exists b, respSt i = HttpResponse false (status i) (text i) b) ->
  In ("Storage failed after 3 retries: API Error: " ++ string_of_nat (status 3%nat) ++ " " ++ text 3%nat)%string
    (warnings (processPlayers staticData reqTp (fun i => corsRequest (respSt i)) reqDu settled)).
Proof.
  intros Hin Hresp.
  assert (He : source_error reqTp (fun i => corsRequest (respSt i)) reqDu Storage =
               Some (mkError ("API Error: " ++ string_of_nat (status 3%nat) ++ " " ++ text 3%nat))).
  { simpl. unfold storageResult, fetchStorage.
    rewrite (retry_http_error respSt status text "Storage" 3 ltac:(lia) Hresp). reflexivity. }
  unfold processPlayers. cbn [warnings]. rewrite fold_on_settle. simpl.
  apply in_flat_map. exists Storage. split; [exact Hin|]. rewrite He. left. reflexivity.
Qed.

Lemma processPlayers_storage_http_warning_witness :
  In Storage [Transfer; Storage; Duplicated] /\
  (forall i, (1 <= i <= 3)%nat ->
     exists b, gateway_then_unavailable i = HttpResponse false (gateway_status i) (gateway_text i) b) /\
  In ("Storage failed after 3 retries: API Error: " ++ string_of_nat (gateway_status 3%nat) ++ " " ++
      gateway_text 3%nat)%string
    (warnings (processPlayers sample_static always_down
                 (fun i => corsRequest (gateway_then_unavailable i)) duplicated_ok
                 [Transfer; Storage; Duplicated])).
Proof.
  assert (H : forall i, (1 <= i <= 3)%nat ->
     exists b, gateway_then_unavailable i = HttpResponse false (gateway_status i) (gateway_text i) b).
  { intros i _. unfold gateway_then_unavailable, gateway_status, gateway_text.
    destruct (i <? 3)%nat; eexists; reflexivity. }
  split; [simpl; right; left; reflexivity|]. split; [exact H|].
  apply (processPlayers_storage_http_warning sample_static always_down gateway_then_unavailable
           duplicated_ok [Transfer; Storage; Duplicated] gateway_status gateway_text).
  - simpl. right. left. reflexivity.
  - exact H.
Defined.

(* ================================================================= *)
(** ** SBC sets, votes and challenges *)

Lemma vote_fold (l : list RawVote.RawVote) m k :
  zmap_get (fold_left vote_step l m) k =
  match find (fun v => match parseInt10 (RawVote.dataId v) with
                       | Some id => Z.eqb id k
                       | None => false
                       end) (rev l) with
  | Some v => Some (Votes.mkSBCVote k (opt_or_zero (RawVote.likes v))
                                      (opt_or_zero (RawVote.disLikes v)))
  | None => zmap_get m k
  end.
Proof.
  revert m. induction l as [|a l IH] using rev_ind; intros m; [reflexivity|].
  rewrite fold_left_app, rev_app_distr. cbn [fold_left rev app find].
  unfold vote_step at 1. destruct (parseInt10 (RawVote.dataId a)) as [id|] eqn:Hp.
  - rewrite zmap_get_set. destruct (Z.eqb id k) eqn:Hk; [|apply IH].
    apply Z.eqb_eq in Hk. subst id. reflexivity.
  - apply IH.
Qed.

(** X11 *)
(** [fetchSBCVotes] issues its request only for a non-empty id list, and
    resolves to an empty map when there are no ids or the request fails.
    Otherwise an id maps to the last element of the votes array whose
    [dataId] [parseInt] reads as that id, with its [likes] and [disLikes]
    (missing, 0 or NaN counted as 0); elements whose [dataId] does not
    parse are skipped. *)
Theorem fetchSBCVotes_lookup (ids : list Z) (response : Attempt (option (list RawVote.RawVote))) (k : Z) :
  fst (fetchSBCVotes ids response) = negb (Nat.eqb (length ids) 0) /\
  zmap_get (snd (fetchSBCVotes ids response)) k =
  match ids, response with
  | [], _ => None
  | _, Fail _ => None
  | _, Ok r =>
      option_map (fun v => Votes.mkSBCVote k (opt_or_zero (RawVote.likes v))
                                             (opt_or_zero (RawVote.disLikes v)))
        (find (fun v => match parseInt10 (RawVote.dataId v) with
                        | Some id => Z.eqb id k
                        | None => false
                        end) (rev (or_nil r)))
  end.
Proof.
  destruct ids as [|i ids]; [split; reflexivity|]. split; [reflexivity|].
  destruct response as [r|t]; [|reflexivity]. simpl.
  rewrite vote_fold. destruct (find _ _); reflexivity.
Qed.

Lemma fetchSBCSets_fold (cs : list Category.SBCCategory) acc :
  fold_left (fun allSets category =>
               match Category.sets category with
               | Some s => allSets ++ s
               | None => allSets
               end) cs acc =
  acc ++ flat_map (fun category => or_nil (Category.sets category)) cs.
Proof.
  revert acc. induction cs as [|c cs IH]; intros acc; simpl; [now rewrite app_nil_r|].
  rewrite IH. destruct (Category.sets c); simpl; [now rewrite app_assoc|reflexivity].
Qed.

Lemma sort_by_all_false {A} (after : A -> A -> bool) (l : list A) :
  (forall a b, In a l -> In b l -> after a b = false) -> sort_by after l = l.
Proof.
  induction l as [|x l IH]; intros Hf; [reflexivity|]. simpl.
  rewrite IH by (intros a b Ha Hb; apply Hf; right; assumption).
  destruct l as [|y l]; [reflexivity|]. simpl.
  rewrite Hf by (simpl; auto). reflexivity.
Qed.

Lemma toDetails_unvoted votes set :
  zmap_get votes (Sets.setId set) = None -> toDetails votes set = unvoted_details set.
Proof. intros H. unfold toDetails. rewrite H. reflexivity. Qed.

(** X12 *)
(** When the votes map has no entry for any set left after the completion
    filter (as when the votes request fails), an uncached
    [fetchAllSBCsWithDetails] returns these sets with zero likes,
    dislikes, like percentage and rank score, in the order [fetchSBCSets]
    lists them: category by category, skipping categories without a
    [sets] array. *)
Theorem sbc_ranking_without_votes c env (response : SBCSetsResponse) :
  cache_hit c (now_start env) = None ->
  sets_response env = inr (fetchSBCSets response) ->
  (forall set, In set (remaining_sets (fetchSBCSets response)) ->
     zmap_get (votes_response env) (Sets.setId set) = None) ->
  snd (fetchAllSBCsWithDetails c env) =
  inr (map unvoted_details
         (remaining_sets (flat_map (fun category => or_nil (Category.sets category))
                                   (or_nil (categories response))))).
Proof.
  intros Hc Hs Hv.
  assert (Hflat : fetchSBCSets response =
                  flat_map (fun category => or_nil (Category.sets category)) (or_nil (categories response))).
  { unfold fetchSBCSets. destruct (categories response) as [cs|]; [|reflexivity].
    rewrite fetchSBCSets_fold. reflexivity. }
  rewrite <- Hflat. unfold fetchAllSBCsWithDetails. rewrite Hc, Hs.
  destruct (remaining_sets (fetchSBCSets response)) as [|s rest] eqn:Hr; [reflexivity|].
  simpl snd. f_equal.
  change (sort_by rank_after (map (toDetails (votes_response env)) (s :: rest)) =
          map unvoted_details (s :: rest)).
  rewrite (map_ext_in (toDetails (votes_response env)) unvoted_details (s :: rest)).
  - apply sort_by_all_false. intros a b Ha Hb.
    apply in_map_iff in Ha, Hb. destruct Ha as [sa [<- _]]. destruct Hb as [sb [<- _]].
    reflexivity.
  - intros set Hin. apply toDetails_unvoted. apply Hv. exact Hin.
Qed.

Lemma sbc_ranking_without_votes_witness :
  cache_hit None (now_start (env_at 1000 (inr (fetchSBCSets sample_categories)))) = None /\
  sets_response (env_at 1000 (inr (fetchSBCSets sample_categories))) = inr (fetchSBCSets sample_categories) /\
  (forall set, In set (remaining_sets (fetchSBCSets sample_categories)) ->
     zmap_get (votes_response (env_at 1000 (inr (fetchSBCSets sample_categories)))) (Sets.setId set) = None) /\
  snd (fetchAllSBCsWithDetails None (env_at 1000 (inr (fetchSBCSets sample_categories)))) =
  inr (map unvoted_details
         (remaining_sets (flat_map (fun category => or_nil (Category.sets category))
                                   (or_nil (categories sample_categories))))).
Proof.
  assert (Hv : forall set, In set (remaining_sets (fetchSBCSets sample_categories)) ->
     zmap_get (votes_response (env_at 1000 (inr (fetchSBCSets sample_categories)))) (Sets.setId set) = None)
    by (intros; reflexivity).
  split; [reflexivity|]. split; [reflexivity|]. split; [exact Hv|].
  exact (sbc_ranking_without_votes None (env_at 1000 (inr (fetchSBCSets sample_categories)))
           sample_categories eq_refl eq_refl Hv).
Defined.

Lemma find_first {A} (p : A -> bool) (l : list A) (a : A) :
  find p l = Some a <->
  exists pre post, l = pre ++ a :: post /\ Forall (fun q => p q = false) pre /\ p a = true.
Proof.
  induction l as [|x l IH]; simpl.
  - split; [discriminate|]. intros [pre [post [H _]]]. destruct pre; discriminate.
  - destruct (p x) eqn:Hx. split.
    + intros H. injection H as <-. exists [], l. split; [reflexivity|]. split; [constructor|exact Hx].
    + intros [pre [post [Hl [Hpre Ha]]]]. destruct pre as [|y pre].
      * injection Hl as <- _. reflexivity.
      * injection Hl as <- _. inversion Hpre; congruence.
    + split.
      * intros H. apply IH in H. destruct H as [pre [post [Hl [Hpre Ha]]]].
        exists (x :: pre), post. split; [rewrite Hl; reflexivity|]. split; [constructor; assumption|exact Ha].
      * intros [pre [post [Hl [Hpre Ha]]]]. destruct pre as [|y pre].
        -- injection Hl as <- _. congruence.
        -- injection Hl as <- Hl. apply IH. exists pre, post. split; [exact Hl|].
           inversion Hpre; subst. split; assumption.
Qed.

(** X13 *)
(** [fetchSBCSetChallengeDetails] keeps the challenges of the response in
    order (none when [challenges] is missing), with their id, name and
    formation; a challenge's [teamRating] is [v] exactly when its
    requirement list contains a [TEAM_RATING_1_TO_100] requirement and the
    first such requirement has value [v], and [null] otherwise. *)
Theorem fetchSBCSetChallengeDetails_spec (response : SBCChallengesResponse) (i : nat)
    (challenge : Challenge.SBCChallenge) :
  nth_error (or_nil (challenges response)) i = Some challenge ->
  exists d, nth_error (fetchSBCSetChallengeDetails response) i = Some d /\
    ChallengeDetail.challengeId d = Challenge.challengeId challenge /\
    ChallengeDetail.name d = Challenge.name challenge /\
    ChallengeDetail.formation d = Challenge.formation challenge /\
    (forall v, ChallengeDetail.teamRating d = Some v <->
       exists pre req post, Challenge.elgReq challenge = Some (pre ++ req :: post) /\
         Forall (fun q => is_team_rating q = false) pre /\
         is_team_rating req = true /\ Elig.eligibilityValue req = v) /\
  length (fetchSBCSetChallengeDetails response) = length (or_nil (challenges response)).
Proof.
  intros Hi. unfold fetchSBCSetChallengeDetails, fetchSBCChallenges.
  rewrite nth_error_map, Hi. simpl. eexists. split; [reflexivity|].
  split; [reflexivity|]. split; [reflexivity|]. split; [reflexivity|].
  split; [|apply length_map].
  intros v. destruct (Challenge.elgReq challenge) as [reqs|].
  - split.
    + intros H. destruct (find is_team_rating reqs) as [req|] eqn:Hf; [|discriminate].
      injection H as <-. apply find_first in Hf. destruct Hf as [pre [post [Hl [Hpre Hr]]]].
      exists pre, req, post. split; [rewrite Hl; reflexivity|]. auto.
    + intros [pre [req [post [Hl [Hpre [Hr Hv]]]]]]. injection Hl as Hl.
      assert (Hf : find is_team_rating reqs = Some req) by (apply find_first; exists pre, post; auto).
      rewrite Hf. simpl. rewrite Hv. reflexivity.
  - split; [discriminate|]. intros [pre [req [post [Hl _]]]]. discriminate.
Qed.

Lemma fetchSBCSetChallengeDetails_spec_witness :
  nth_error (or_nil (challenges (mkSBCChallengesResponse (Some [sample_challenge])))) 0 =
    Some sample_challenge /\
  exists d, nth_error (fetchSBCSetChallengeDetails (mkSBCChallengesResponse (Some [sample_challenge]))) 0 = Some d /\
    ChallengeDetail.challengeId d = Challenge.challengeId sample_challenge /\
    ChallengeDetail.name d = Challenge.name sample_challenge /\
    ChallengeDetail.formation d = Challenge.formation sample_challenge /\
    (forall v, ChallengeDetail.teamRating d = Some v <->
       exists pre req post, Challenge.elgReq sample_challenge = Some (pre ++ req :: post) /\
         Forall (fun q => is_team_rating q = false) pre /\
         is_team_rating req = true /\ Elig.eligibilityValue req = v) /\
  length (fetchSBCSetChallengeDetails (mkSBCChallengesResponse (Some [sample_challenge]))) =
    length (or_nil (challenges (mkSBCChallengesResponse (Some [sample_challenge])))).
Proof.
  split; [reflexivity|].
  apply (fetchSBCSetChallengeDetails_spec (mkSBCChallengesResponse (Some [sample_challenge])) 0).
  reflexivity.
Defined.

(* ================================================================= *)
(** ** Statistics of the players page *)

Lemma fold_sum {A} (f : A -> nat) (l : list A) (a : nat) :
  fold_left (fun sum x => sum + f x) l a = a + list_sum (map f l).
Proof.
  revert a. induction l as [|x l IH]; intros a; simpl; [lia|]. rewrite IH. lia.
Qed.

Lemma cards_split (fp : list AggregatedPlayer) :
  (forall p, In p fp -> (1 <= copies p)%nat) ->
  totalCardsCount fp = (uniquePlayersCount fp + duplicatesCount fp)%nat.
Proof.
  unfold totalCardsCount, uniquePlayersCount, duplicatesCount. rewrite !fold_sum. simpl.
  induction fp as [|p fp IH]; intros Hc; simpl; [reflexivity|].
  assert (Hp : (1 <= copies p)%nat) by (apply Hc; left; reflexivity).
  rewrite IH by (intros q Hq; apply Hc; right; exact Hq).
  destruct (Nat.ltb 1 (copies p)) eqn:Hlt; simpl.
  - lia.
  - apply Nat.ltb_ge in Hlt. lia.
Qed.

(** X14 *)
(** On the players page, when every shown player has at least one copy,
    the total number of cards is the number of unique players plus the
    number of duplicates. *)
Theorem stats_cards_split (filteredPlayers : list AggregatedPlayer) :
  (forall p, In p filteredPlayers -> (1 <= copies p)%nat) ->
  totalCardsCount filteredPlayers =
  (uniquePlayersCount filteredPlayers + duplicatesCount filteredPlayers)%nat.
Proof. apply cards_split. Qed.

Lemma stats_cards_split_witness :
  (forall p, In p sample_aggregated -> (1 <= copies p)%nat) /\
  totalCardsCount sample_aggregated =
  (uniquePlayersCount sample_aggregated + duplicatesCount sample_aggregated)%nat.
Proof.
  assert (H : forall p, In p sample_aggregated -> (1 <= copies p)%nat).
  { intros p Hp. repeat (destruct Hp as [<-|Hp]; [simpl; lia|]). contradiction. }
  split; [exact H|]. exact (stats_cards_split sample_aggregated H).
Defined.

Lemma list_sum_add {A} (f g : A -> nat) (l : list A) :
  list_sum (map (fun x => f x + g x) l) = list_sum (map f l) + list_sum (map g l).
Proof. induction l as [|x l IH]; simpl; [reflexivity|]. rewrite IH. lia. Qed.

Lemma list_sum_indicator {B} (dec : forall a b : B, {a = b} + {a <> b}) (y : B) (U : list B) :
  NoDup U ->
  list_sum (map (fun k => if dec y k then 1 else 0) U) = if in_dec dec y U then 1 else 0.
Proof.
  induction U as [|k U IH]; intros Hnd; simpl; [reflexivity|].
  inversion Hnd as [|? ? Hk HU]; subst. rewrite (IH HU).
  destruct (dec y k) as [<-|Hne].
  - destruct (in_dec dec y U); [contradiction|]. destruct (dec y y); [reflexivity|congruence].
  - destruct (dec k y); [congruence|]. destruct (in_dec dec y U); reflexivity.
Qed.

Lemma sum_records_with_key (ps : list ProcessedPlayer) :
  list_sum (map (fun k => length (records_with_key k ps)) (undup key_eq_dec (map key ps))) = length ps.
Proof.
  induction ps as [|p ps IH] using rev_ind; [reflexivity|].
  rewrite map_app. cbn [map]. rewrite undup_snoc.
  assert (Hsplit : forall U,
    list_sum (map (fun k => length (records_with_key k (ps ++ [p]))) U) =
    list_sum (map (fun k => length (records_with_key k ps)) U) +
    list_sum (map (fun k => if key_eq_dec (key p) k then 1 else 0) U)).
  { intros U. rewrite <- list_sum_add. f_equal. apply map_ext. intros k.
    rewrite records_with_key_snoc, length_app. destruct (key_eq_dec (key p) k); reflexivity. }
  rewrite Hsplit, length_app. simpl length.
  destruct (in_dec key_eq_dec (key p) (map key ps)) as [Hin|Hnin].
  - rewrite IH, list_sum_indicator by apply undup_NoDup.
    destruct (in_dec key_eq_dec (key p) (undup key_eq_dec (map key ps))) as [_|Hn]; [reflexivity|].
    exfalso. apply Hn. apply undup_In. exact Hin.
  - rewrite !map_app, !list_sum_app. cbn [map list_sum].
    rewrite IH, (records_with_key_nil _ _ Hnin), list_sum_indicator by apply undup_NoDup.
    destruct (key_eq_dec (key p) (key p)); [|congruence].
    destruct (in_dec key_eq_dec (key p) (undup key_eq_dec (map key ps))) as [Hu|];
      [apply undup_In in Hu; contradiction|].
    simpl. lia.
Qed.

(** X15 *)
(** The statistics of the unfiltered aggregation of a list of records:
    the total number of cards is the number of records, the unique players
    are the distinct (asset id, rating) keys, and the duplicates are the
    records beyond the first of each key. *)
Theorem aggregated_stats (ps : list ProcessedPlayer) :
  totalCardsCount (aggregatedPlayers ps) = length ps /\
  uniquePlayersCount (aggregatedPlayers ps) = length (undup key_eq_dec (map key ps)) /\
  duplicatesCount (aggregatedPlayers ps) = (length ps - length (undup key_eq_dec (map key ps)))%nat.
Proof.
  destruct (agg_inv_fold ps) as [Hkeys Hent].
  set (m := fold_left aggregate_step ps []) in *.
  assert (Htotal : totalCardsCount (aggregatedPlayers ps) = length ps).
  { unfold totalCardsCount, aggregatedPlayers. fold m. rewrite fold_sum, map_map. simpl.
    rewrite (map_ext_in (fun x => copies (snd x)) (fun x => length (records_with_key (fst x) ps)) m).
    - rewrite <- (map_map fst (fun k => length (records_with_key k ps))), Hkeys.
      apply sum_records_with_key.
    - intros [k v] Hin. destruct (Hent k v Hin) as (_ & Hc & _). exact Hc. }
  assert (Hunique : uniquePlayersCount (aggregatedPlayers ps) = length (undup key_eq_dec (map key ps))).
  { unfold uniquePlayersCount, aggregatedPlayers. fold m. rewrite <- Hkeys, !length_map. reflexivity. }
  split; [exact Htotal|]. split; [exact Hunique|].
  assert (Hsplit := cards_split (aggregatedPlayers ps)).
  rewrite Htotal, Hunique in Hsplit.
  enough (H : forall p, In p (aggregatedPlayers ps) -> (1 <= copies p)%nat) by (specialize (Hsplit H); lia).
  intros p Hp. unfold aggregatedPlayers in Hp. fold m in Hp.
  apply in_map_iff in Hp. destruct Hp as [[k v] [<- Hin]].
  destruct (Hent k v Hin) as (Hk & Hc & _). simpl. rewrite Hc.
  assert (Hk' : In k (map key ps)).
  { rewrite <- (undup_In key_eq_dec), <- Hkeys. apply (in_map fst) in Hin. exact Hin. }
  apply in_map_iff in Hk'. destruct Hk' as [q [Hq Hqin]].
  destruct (records_with_key k ps) eqn:Hr; [|simpl; lia].
  assert (Hf : In q (records_with_key k ps)).
  { unfold records_with_key. apply filter_In. split; [exact Hqin|].
    destruct (key_eq_dec (key q) k); [reflexivity|contradiction]. }
  rewrite Hr in Hf. contradiction.
Qed.

Lemma range_bucket (r : Z) :
  ((if (87 <=? r) && (r <=? 99) then 1 else 0) +
   (if (84 <=? r) && (r <=? 86) then 1 else 0) +
   (if (0 <=? r) && (r <=? 83) then 1 else 0))%Z%nat =
  (if (0 <=? r) && (r <=? 99) then 1 else 0)%Z%nat.
Proof.
  destruct (Z.leb_spec 87 r), (Z.leb_spec r 99), (Z.leb_spec 84 r), (Z.leb_spec r 86),
    (Z.leb_spec 0 r), (Z.leb_spec r 83); simpl; lia.
Qed.

(** X16 *)
(** The three ranges of the rating distribution chart (87-99, 84-86,
    0-83) add up to the number of players whose rating lies in 0..99: a
    player in that interval is counted exactly once, one outside it in no
    range. *)
Theorem ratingDistribution_total (players : list AggregatedPlayer) :
  distribution_total (ratingDistribution players) =
  length (filter (fun p => (0 <=? rating (base p)) && (rating (base p) <=? 99))%Z players).
Proof.
  unfold distribution_total, ratingDistribution, rating_ranges. simpl.
  induction players as [|p players IH]; simpl; [reflexivity|].
  pose proof (range_bucket (rating (base p))) as Hb.
  destruct ((87 <=? rating (base p)) && (rating (base p) <=? 99))%Z;
    destruct ((84 <=? rating (base p)) && (rating (base p) <=? 86))%Z;
    destruct ((0 <=? rating (base p)) && (rating (base p) <=? 83))%Z;
    destruct ((0 <=? rating (base p)) && (rating (base p) <=? 99))%Z;
    simpl in *; lia.
Qed.

Lemma type_count_step_sum counts p :
  sum3 (type_count_step counts p) = (sum3 counts + copies p * length (types p))%nat.
Proof.
  unfold type_count_step. generalize (types p) as ts. intros ts. revert counts.
  induction ts as [|t ts IH]; intros [[tr st] du]; simpl; [lia|].
  rewrite IH. destruct t; simpl; lia.
Qed.

(** X17 *)
(** The "Cards by Location" chart adds a player's copies to every location
    the player has: its total is the sum over players of copies times
    number of locations. So it is at least the number of cards when every
    player has a location, and more than it as soon as a player with a
    copy has two locations. *)
Theorem typeDistribution_total (players : list AggregatedPlayer) :
  distribution_total (typeDistribution players) =
    list_sum (map (fun p => copies p * length (types p)) players) /\
  ((forall p, In p players -> types p <> []) ->
   (totalCardsCount players <= distribution_total (typeDistribution players))%nat) /\
  ((forall p, In p players -> types p <> []) ->
   (exists p, In p players /\ 1 <= copies p /\ 2 <= length (types p))%nat ->
   (totalCardsCount players < distribution_total (typeDistribution players))%nat).
Proof.
  assert (Htot : distribution_total (typeDistribution players) =
                 list_sum (map (fun p => copies p * length (types p)) players)).
  { unfold distribution_total, typeDistribution.
    assert (H : forall c, sum3 (fold_left type_count_step players c) =
                          (sum3 c + list_sum (map (fun p => copies p * length (types p)) players))%nat).
    { induction players as [|p players IH]; intros c; simpl; [lia|].
      rewrite IH, type_count_step_sum. lia. }
    specialize (H (0, 0, 0)%nat). destruct (fold_left type_count_step players (0, 0, 0)%nat) as [[a b] d].
    simpl in *. lia. }
  unfold totalCardsCount. rewrite fold_sum, Htot. simpl.
  split; [reflexivity|]. split.
  - intros Hne. clear Htot. induction players as [|p players IH]; simpl; [lia|].
    assert (Hp : types p <> []) by (apply Hne; left; reflexivity).
    destruct (types p); [congruence|]. simpl.
    specialize (IH (fun q Hq => Hne q (or_intror Hq))). nia.
  - intros Hne [p0 [Hin [Hc Ht]]]. clear Htot. induction players as [|p players IH]; simpl; [contradiction|].
    assert (Hp : types p <> []) by (apply Hne; left; reflexivity).
    assert (Hle : (list_sum (map copies players) <=
                   list_sum (map (fun p => copies p * length (types p)) players))%nat).
    { clear IH Hin Hp. induction players as [|q players IHq]; simpl; [lia|].
      assert (Hq : types q <> []) by (apply Hne; right; left; reflexivity).
      destruct (types q); [congruence|]. simpl.
      specialize (IHq (fun r Hr => Hne r (match Hr with
                                          | or_introl e => or_introl e
                                          | or_intror h => or_intror (or_intror h) end))).
      nia. }
    destruct Hin as [<-|Hin].
    + nia.
    + specialize (IH (fun q Hq => Hne q (or_intror Hq)) Hin).
      destruct (types p); [congruence|]. simpl. nia.
Qed.

Lemma concat_pages {A} (items : list A) (pageSize k : nat) :
  concat (map (fun i => currentItems items pageSize i) (seq 0 k)) = firstn (k * pageSize) items.
Proof.
  induction k as [|k IH]; [reflexivity|].
  rewrite seq_S, map_app, concat_app, IH. simpl. rewrite app_nil_r.
  unfold currentItems, slice.
  replace ((k + 1) * pageSize - k * pageSize)%nat with pageSize by nia.
  replace (S k * pageSize)%nat with (k * pageSize + pageSize)%nat by lia.
  clear IH. generalize (k * pageSize)%nat as n. intros n.
  try rewrite (Nat.add_comm pageSize n). revert items.
  induction n as [|n IHn]; intros items; [simpl; rewrite ?Nat.add_0_r; reflexivity|].
  destruct items as [|x items]; simpl; [destruct pageSize; reflexivity|].
  f_equal. apply IHn.
Qed.

(** X18 *)
(** The pages of [PaginatedTopList] and [SBCList], from 0 to
    [totalPages - 1], put back together give the whole list, and each of
    them shows between 1 and [pageSize] items. *)
Theorem pages_partition {A} (items : list A) (pageSize : nat) :
  (0 < pageSize)%nat ->
  concat (all_pages items pageSize) = items /\
  Forall (fun pg => 1 <= length pg <= pageSize)%nat (all_pages items pageSize).
Proof.
  intros Hps. unfold all_pages, totalPages.
  set (q := ((length items + pageSize - 1) / pageSize)%nat).
  assert (Hq : (length items <= q * pageSize)%nat).
  { pose proof (Nat.div_mod (length items + pageSize - 1) pageSize ltac:(lia)) as Hd.
    pose proof (Nat.mod_upper_bound (length items + pageSize - 1) pageSize ltac:(lia)).
    unfold q. nia. }
  split.
  - rewrite concat_pages. apply firstn_all2. exact Hq.
  - apply Forall_forall. intros pg Hpg. apply in_map_iff in Hpg.
    destruct Hpg as [i [<- Hi]]. apply in_seq in Hi.
    assert (Hlt : (i * pageSize < length items)%nat).
    { assert (Hle : (pageSize * q <= length items + pageSize - 1)%nat) by apply Nat.Div0.mul_div_le.
      assert (Hm : ((i + 1) * pageSize <= q * pageSize)%nat) by (apply Nat.mul_le_mono_r; lia).
      lia. }
    unfold currentItems, slice. rewrite length_firstn, length_skipn.
    replace ((i + 1) * pageSize - i * pageSize)%nat with pageSize by nia. lia.
Qed.

Lemma pages_partition_witness :
  (0 < 5)%nat /\
  concat (all_pages (seq 1 12) 5) = seq 1 12 /\
  Forall (fun pg => 1 <= length pg <= 5)%nat (all_pages (seq 1 12) 5).
Proof. split; [lia|]. apply (pages_partition (seq 1 12) 5). lia. Defined.

Lemma pager_step_inv pageSize st ev :
  pager_inv pageSize st -> pager_inv pageSize (pager_step pageSize st ev).
Proof.
  unfold pager_inv. intros Hinv. destruct ev as [| |n]; simpl.
  - destruct ((1 <? totalPages (items_length st) pageSize)%nat && negb (page st =? 0)%nat) eqn:E;
      [|exact Hinv].
    simpl. right. destruct Hinv as [H0|Hlt]; [|lia].
    rewrite H0 in E. rewrite andb_false_r in E. discriminate.
  - destruct ((1 <? totalPages (items_length st) pageSize)%nat &&
              negb (Z.of_nat (page st) >=? Z.of_nat (totalPages (items_length st) pageSize) - 1)%Z) eqn:E;
      [|exact Hinv].
    simpl. right. apply andb_prop in E. destruct E as [E1 E2].
    apply negb_true_iff in E2. rewrite Z.geb_leb in E2. apply Z.leb_gt in E2. lia.
  - left. reflexivity.
Qed.

Lemma pager_fold_inv pageSize evs st0 :
  pager_inv pageSize st0 -> pager_inv pageSize (fold_left (pager_step pageSize) evs st0).
Proof.
  revert st0. induction evs as [|ev evs IH]; intros st0 Hi; simpl; [exact Hi|].
  apply IH. apply pager_step_inv. exact Hi.
Qed.

(** X19 *)
(** Whatever chevrons are clicked (only when shown and enabled) and
    however the list changes (the page then going back to 0 through the
    [setPage(0)] effect), the page of [PaginatedTopList] never points past
    the last page, so "No data" is shown only for an empty list. *)
Theorem pager_in_range (pageSize : nat) (st0 : Pager) (evs : list PagerEvent) :
  (0 < pageSize)%nat -> page st0 = 0%nat ->
  let st := fold_left (pager_step pageSize) evs st0 in
  items_length st = 0%nat \/ (page st * pageSize < items_length st)%nat.
Proof.
  intros Hps H0 st.
  assert (Hinv : pager_inv pageSize st) by (apply pager_fold_inv; left; exact H0).
  destruct (items_length st) as [|n] eqn:Hn; [left; reflexivity|right].
  destruct Hinv as [Hp|Hlt]; [rewrite Hp; lia|].
  rewrite Hn in Hlt. unfold totalPages in Hlt.
  set (q := ((S n + pageSize - 1) / pageSize)%nat) in *.
  assert (Hle : (pageSize * q <= S n + pageSize - 1)%nat) by apply Nat.Div0.mul_div_le.
  assert (Hm : ((page st + 1) * pageSize <= q * pageSize)%nat) by (apply Nat.mul_le_mono_r; lia).
  lia.
Qed.

Lemma pager_in_range_witness :
  (0 < 5)%nat /\ page (mkPager 12 0) = 0%nat /\
  (let st := fold_left (pager_step 5) [NextClick; NextClick; NextClick; NewItems 4; NextClick]
                       (mkPager 12 0) in
   items_length st = 0%nat \/ (page st * 5 < items_length st)%nat).
Proof.
  split; [lia|]. split; [reflexivity|].
  apply (pager_in_range 5 (mkPager 12 0)); [lia|reflexivity].
Defined.

(* ================================================================= *)
(** ** Top lists of the players page *)

Lemma smap_get_set {V} (m : list (string * V)) k v k' :
  smap_get (smap_set m k v) k' = if String.eqb k k' then Some v else smap_get m k'.
Proof.
  induction m as [|[k0 v0] m IH]; simpl.
  - destruct (String.eqb k k'); reflexivity.
  - destruct (String.eqb k0 k) eqn:E0.
    + apply String.eqb_eq in E0; subst k0. simpl. destruct (String.eqb k k'); reflexivity.
    + simpl. destruct (String.eqb k0 k') eqn:E1; [|exact IH].
      apply String.eqb_eq in E1; subst k0. rewrite String.eqb_sym in E0. rewrite E0. reflexivity.
Qed.

Lemma smap_set_keys_in {V} (m : list (string * V)) k v x :
  In x (map fst (smap_set m k v)) -> In x (map fst m) \/ x = k.
Proof.
  induction m as [|[k0 v0] m IH]; simpl.
  - intros [->|[]]. right. reflexivity.
  - destruct (String.eqb k0 k); simpl; [tauto|]. intros [->|H]; [tauto|]. destruct (IH H); tauto.
Qed.

Lemma smap_set_NoDup {V} (m : list (string * V)) k v :
  NoDup (map fst m) -> NoDup (map fst (smap_set m k v)).
Proof.
  induction m as [|[k0 v0] m IH]; simpl; intros Hnd.
  - constructor; [intros []|constructor].
  - inversion Hnd as [|? ? Hk0 Hm]; subst.
    destruct (String.eqb k0 k) eqn:E; simpl; constructor; auto.
    intros Hin. apply smap_set_keys_in in Hin. destruct Hin as [Hin|<-]; [contradiction|].
    rewrite String.eqb_refl in E. discriminate.
Qed.

Lemma smap_get_In {V} (m : list (string * V)) k v :
  smap_get m k = Some v -> In (k, v) m.
Proof.
  induction m as [|[k0 v0] m IH]; simpl; [discriminate|].
  destruct (String.eqb k0 k) eqn:E.
  - intros H. injection H as <-. apply String.eqb_eq in E. subst. left. reflexivity.
  - intros H. right. apply IH. exact H.
Qed.

Lemma In_smap_get {V} (m : list (string * V)) k v :
  NoDup (map fst m) -> In (k, v) m -> smap_get m k = Some v.
Proof.
  induction m as [|[k0 v0] m IH]; simpl; intros Hnd Hin; [contradiction|].
  inversion Hnd as [|? ? Hk0 Hm]; subst.
  destruct Hin as [Heq|Hin].
  - injection Heq as <- <-. rewrite String.eqb_refl. reflexivity.
  - destruct (String.eqb k0 k) eqn:E; [|apply IH; assumption].
    apply String.eqb_eq in E. subst k0. exfalso. apply Hk0.
    apply (in_map fst) in Hin. exact Hin.
Qed.

Section CountingFacts.
Context {A V : Type} (keyf : A -> string) (upd : V -> V) (init : A -> V).

Lemma count_fold (l : list A) (k : string) :
  smap_get (fold_left (count_step keyf upd init) l []) k =
  match filter (fun x => String.eqb (keyf x) k) l with
  | [] => None
  | x :: rest => Some (Nat.iter (length rest) upd (init x))
  end.
Proof.
  induction l as [|a l IH] using rev_ind; [reflexivity|].
  rewrite fold_left_app, filter_app. simpl. unfold count_step at 1.
  rewrite smap_get_set.
  destruct (String.eqb (keyf a) k) eqn:Hk.
  - apply String.eqb_eq in Hk. subst k. rewrite IH.
    destruct (filter _ l) as [|x rest]; simpl; [reflexivity|].
    rewrite length_app. simpl. rewrite Nat.add_1_r. reflexivity.
  - rewrite IH, app_nil_r. reflexivity.
Qed.

Lemma count_fold_NoDup (l : list A) :
  NoDup (map fst (fold_left (count_step keyf upd init) l [])).
Proof.
  assert (H : forall m, NoDup (map fst m) -> NoDup (map fst (fold_left (count_step keyf upd init) l m))).
  { induction l as [|a l IH]; intros m Hm; simpl; [exact Hm|].
    apply IH. apply smap_set_NoDup. exact Hm. }
  apply H. constructor.
Qed.

Lemma count_fold_sum (w : V -> nat) (l : list A) :
  (forall v, w (upd v) = S (w v)) -> (forall x, w (init x) = 1%nat) ->
  list_sum (map (fun kv => w (snd kv)) (fold_left (count_step keyf upd init) l [])) = length l.
Proof.
  intros Hupd Hinit.
  assert (Hset : forall (m : list (string * V)) k v,
    (list_sum (map (fun kv => w (snd kv)) (smap_set m k v)) +
     match smap_get m k with Some o => w o | None => 0 end =
     list_sum (map (fun kv => w (snd kv)) m) + w v)%nat).
  { induction m as [|[k0 v0] m IH]; intros k v; simpl; [lia|].
    destruct (String.eqb k0 k); simpl; [lia|]. specialize (IH k v). lia. }
  assert (H : forall m, list_sum (map (fun kv => w (snd kv)) (fold_left (count_step keyf upd init) l m)) =
                        (list_sum (map (fun kv => w (snd kv)) m) + length l)%nat).
  { induction l as [|a l IH]; intros m; simpl; [lia|].
    rewrite IH. unfold count_step. specialize (Hset m (keyf a)
      (match smap_get m (keyf a) with Some v => upd v | None => init a end)).
    destruct (smap_get m (keyf a)); [rewrite Hupd in Hset|rewrite Hinit in Hset]; lia. }
  rewrite H. reflexivity.
Qed.
End CountingFacts.

Lemma entity_fold (key : AggregatedPlayer -> string) (img : AggregatedPlayer -> option string) l :
  fold_left (entity_count_step key img) l [] =
  fold_left (count_step key entity_upd (fun p => (1%nat, img p))) l [].
Proof.
  apply fold_left_ext_eq. intros m p. unfold entity_count_step, count_step, entity_upd.
  destruct (smap_get m (key p)); reflexivity.
Qed.

Lemma fold_left_map_comm {A B C} (f : A -> B -> A) (g : C -> B) l a :
  fold_left f (map g l) a = fold_left (fun acc x => f acc (g x)) l a.
Proof. revert a; induction l as [|x l IH]; intros a; simpl; [reflexivity|]. apply IH. Qed.

Lemma positions_fold (players : list AggregatedPlayer) :
  fold_left position_count_step players [] =
  fold_left (count_step (fun s => s) S (fun _ => 1%nat)) (flat_map position_pieces players) [].
Proof.
  rewrite fold_left_flat_map. apply fold_left_ext_eq. intros m p.
  unfold position_count_step, position_pieces. rewrite fold_left_map_comm.
  apply fold_left_ext_eq. intros m' pos. unfold count_step.
  destruct (smap_get m' (trim pos)); rewrite ?Nat.add_1_r; reflexivity.
Qed.

Lemma entity_iter n i : Nat.iter n entity_upd (1%nat, i) = (S n, i).
Proof. induction n as [|n IH]; simpl; [reflexivity|]. rewrite IH. reflexivity. Qed.

Lemma succ_iter n : Nat.iter n S 1%nat = S n.
Proof. induction n as [|n IH]; simpl; [reflexivity|]. rewrite IH. reflexivity. Qed.

Lemma count_insert_sorted x l :
  Sorted (fun a b => Top.count b <= Top.count a)%nat l ->
  Sorted (fun a b => Top.count b <= Top.count a)%nat (insert_by count_after x l).
Proof.
  induction l as [|y l IH]; simpl; intros Hs.
  - repeat constructor.
  - unfold count_after at 1. destruct (Top.count x <? Top.count y)%nat eqn:Hxy.
    + apply Nat.ltb_lt in Hxy. inversion Hs as [|? ? Hl Hhd]; subst.
      constructor; [now apply IH|].
      destruct l as [|z l]; simpl.
      * constructor. lia.
      * unfold count_after at 1. destruct (Top.count x <? Top.count z)%nat eqn:Hxz; constructor.
        -- now inversion Hhd.
        -- lia.
    + apply Nat.ltb_ge in Hxy. constructor; [exact Hs|]. constructor. lia.
Qed.

Lemma count_sort_sorted l :
  Sorted (fun a b => Top.count b <= Top.count a)%nat (sort_by count_after l).
Proof. induction l as [|x l IH]; simpl; [constructor|]. now apply count_insert_sorted. Qed.

Lemma list_sum_perm (l l' : list nat) : Permutation l l' -> list_sum l = list_sum l'.
Proof. induction 1; simpl; lia. Qed.

(** X20 *)
(** In the club, nation and league lists of [topStats], an entry's count
    is the number of shown players with that club (nation, league), each
    player counting once whatever its copies, and its image is the one of
    the first such player. *)
Theorem top_entities_item (key : AggregatedPlayer -> string) (img : AggregatedPlayer -> option string)
    (players : list AggregatedPlayer) (item : Top.TopItem) :
  In item (top_entities key img players) ->
  exists p rest, filter (fun q => String.eqb (key q) (Top.name item)) players = p :: rest /\
    Top.count item = length (p :: rest) /\ Top.imgUrl item = img p.
Proof.
  unfold top_entities. rewrite entity_fold. intros Hin.
  apply (Permutation_in _ (sort_by_perm _ _)) in Hin.
  apply in_map_iff in Hin. destruct Hin as [[k [c i]] [<- Hin]]. simpl.
  apply In_smap_get in Hin; [|apply count_fold_NoDup].
  rewrite count_fold in Hin.
  destruct (filter _ players) as [|p rest]; [discriminate|].
  injection Hin as Hci. rewrite entity_iter in Hci. injection Hci as <- <-.
  exists p, rest. split; [reflexivity|]. split; reflexivity.
Qed.

Lemma top_entities_item_witness :
  In (Top.mkTopItem "FC Barcelona" 2 (Some "clubs/dark/FC Barcelona"%string))
     (top_entities (fun p => team (base p)) (fun p => teamImg (base p)) sample_stats_players) /\
  exists p rest, filter (fun q => String.eqb (team (base q)) "FC Barcelona") sample_stats_players = p :: rest /\
    2%nat = length (p :: rest) /\ Some "clubs/dark/FC Barcelona"%string = teamImg (base p).
Proof.
  assert (H : In (Top.mkTopItem "FC Barcelona" 2 (Some "clubs/dark/FC Barcelona"%string))
     (top_entities (fun p => team (base p)) (fun p => teamImg (base p)) sample_stats_players))
    by (vm_compute; left; reflexivity).
  split; [exact H|].
  exact (top_entities_item (fun p => team (base p)) (fun p => teamImg (base p))
           sample_stats_players _ H).
Defined.

(** X21 *)
(** The club, nation and league lists of [topStats] name each club
    (nation, league) of the shown players exactly once, are sorted by
    count from highest to lowest, and their counts add up to the number of
    shown players. *)
Theorem top_entities_shape (key : AggregatedPlayer -> string) (img : AggregatedPlayer -> option string)
    (players : list AggregatedPlayer) :
  NoDup (map Top.name (top_entities key img players)) /\
  (forall p, In p players ->
     exists item, In item (top_entities key img players) /\ Top.name item = key p) /\
  Sorted (fun a b => Top.count b <= Top.count a)%nat (top_entities key img players) /\
  list_sum (map Top.count (top_entities key img players)) = length players.
Proof.
  set (m := fold_left (count_step key entity_upd (fun p => (1%nat, img p))) players []).
  assert (Htop : top_entities key img players =
                 sort_by count_after (map (fun '(n, (c, i)) => Top.mkTopItem n c i) m)).
  { unfold top_entities. rewrite entity_fold. reflexivity. }
  assert (Hperm := sort_by_perm count_after (map (fun '(n, (c, i)) => Top.mkTopItem n c i) m)).
  assert (Hnames : map Top.name (map (fun '(n, (c, i)) => Top.mkTopItem n c i) m) = map fst m).
  { rewrite map_map. apply map_ext. intros [n [c i]]. reflexivity. }
  rewrite Htop. split; [|split; [|split]].
  - apply (Permutation_NoDup (Permutation_map Top.name (Permutation_sym Hperm))).
    rewrite Hnames. apply count_fold_NoDup.
  - intros p Hp.
    assert (Hg : smap_get m (key p) <> None).
    { unfold m. rewrite count_fold. destruct (filter _ players) eqn:Hf; [|discriminate].
      assert (Hin : In p (filter (fun x => String.eqb (key x) (key p)) players))
        by (apply filter_In; split; [exact Hp|apply String.eqb_refl]).
      rewrite Hf in Hin. contradiction. }
    destruct (smap_get m (key p)) as [[c i]|] eqn:Hget; [|congruence].
    exists (Top.mkTopItem (key p) c i). split; [|reflexivity].
    apply (Permutation_in _ (Permutation_sym Hperm)).
    apply in_map_iff. exists (key p, (c, i)). split; [reflexivity|]. apply smap_get_In. exact Hget.
  - apply count_sort_sorted.
  - rewrite (list_sum_perm _ _ (Permutation_map Top.count Hperm)), map_map.
    rewrite <- (count_fold_sum key entity_upd (fun p => (1%nat, img p)) fst players)
      by (intros; reflexivity).
    fold m. f_equal. apply map_ext. intros [n [c i]]. reflexivity.
Qed.

(** X22 *)
(** The positions list of [topStats] splits each shown player's position
    string on [" / "] and trims the pieces: it names each piece once,
    with the number of occurrences of that piece among all players'
    pieces as count (at least 1) and no image, is sorted by count from
    highest to lowest, and its counts add up to the number of pieces. *)
Theorem top_positions_spec (players : list AggregatedPlayer) :
  NoDup (map Top.name (top_positions players)) /\
  Sorted (fun a b => Top.count b <= Top.count a)%nat (top_positions players) /\
  (forall item, In item (top_positions players) ->
     Top.count item = length (filter (fun s => String.eqb s (Top.name item))
                                     (flat_map position_pieces players)) /\
     (1 <= Top.count item)%nat /\ Top.imgUrl item = None) /\
  (forall s, In s (flat_map position_pieces players) ->
     exists item, In item (top_positions players) /\ Top.name item = s) /\
  list_sum (map Top.count (top_positions players)) = length (flat_map position_pieces players).
Proof.
  set (L := flat_map position_pieces players).
  set (m := fold_left (count_step (fun s => s) S (fun _ => 1%nat)) L []).
  assert (Htop : top_positions players = sort_by count_after (map (fun '(n, c) => Top.mkTopItem n c None) m)).
  { unfold top_positions. rewrite positions_fold. reflexivity. }
  assert (Hperm := sort_by_perm count_after (map (fun '(n, c) => Top.mkTopItem n c None) m)).
  rewrite Htop. split; [|split; [|split; [|split]]].
  - apply (Permutation_NoDup (Permutation_map Top.name (Permutation_sym Hperm))).
    rewrite map_map. replace (map _ m) with (map fst m) by (apply map_ext; intros [n c]; reflexivity).
    apply count_fold_NoDup.
  - apply count_sort_sorted.
  - intros item Hin. apply (Permutation_in _ Hperm) in Hin.
    apply in_map_iff in Hin. destruct Hin as [[k c] [<- Hin]]. simpl.
    apply In_smap_get in Hin; [|apply count_fold_NoDup].
    unfold m in Hin. rewrite count_fold in Hin.
    destruct (filter _ L) as [|x rest] eqn:Hf; [discriminate|].
    injection Hin as <-. rewrite succ_iter.
    split; [|split; [lia|reflexivity]]. simpl length. reflexivity.
  - intros s Hs.
    assert (Hg : smap_get m s <> None).
    { unfold m. rewrite count_fold. destruct (filter _ L) eqn:Hf; [|discriminate].
      assert (Hin : In s (filter (fun x => String.eqb x s) L))
        by (apply filter_In; split; [exact Hs|apply String.eqb_refl]).
      rewrite Hf in Hin. contradiction. }
    destruct (smap_get m s) as [c|] eqn:Hget; [|congruence].
    exists (Top.mkTopItem s c None). split; [|reflexivity].
    apply (Permutation_in _ (Permutation_sym Hperm)).
    apply in_map_iff. exists (s, c). split; [reflexivity|]. apply smap_get_In. exact Hget.
  - rewrite (list_sum_perm _ _ (Permutation_map Top.count Hperm)), map_map.
    rewrite <- (count_fold_sum (fun s => s) S (fun _ => 1%nat) (fun c => c) L)
      by (intros; reflexivity).
    fold m. f_equal. apply map_ext. intros [n c]. reflexivity.
Qed.
